(** * A shallow embedding of the gologger logger (logger package, part_001)

    The model follows [logMessage], [saveToFile], [checkSaveLogOption] and
    the four level entry points of the package.  The console spinner is a
    presentation device: only the final line it prints on [s.Stop()]
    ([s.FinalMSG]) is recorded.  Clock reads ([time.Now()]) are explicit
    arguments, the local-zone formatting of a time with the layout
    "2006-01-02 15:04:05" is a parameter [fmt_time], and the file system is
    an explicit state. *)

From Stdlib Require Import String Ascii ZArith Lia.
From stdpp Require Import base gmap list strings.

Open Scope string_scope.

(** ** Go values used by the package *)

(** The dynamic value of an [any] field: the nil interface, a [bool], a
    [string], or a value of some other dynamic type (recorded by the name
    that [%T] prints). *)
Inductive Any :=
| ANil
| ABool (b : bool)
| AStr (s : string)
| AOther (type_name : string).

(** [fmt.Sprintf("%T", v)] *)
Definition type_name_of (v : Any) : string :=
  match v with
  | ANil => "<nil>"
  | ABool _ => "bool"
  | AStr _ => "string"
  | AOther t => t
  end.

Definition INFO := "INFO".
Definition WARN := "WARN".
Definition FATAL := "FATAL".
Definition PANIC := "PANIC".

(** [strings.Join(parts, sep)] *)
Fixpoint join (sep : string) (parts : list string) : string :=
  match parts with
  | [] => ""
  | [p] => p
  | p :: rest => p ++ sep ++ join sep rest
  end.

(** ** checkSaveLogOption *)

(** Returns [(shouldSave, path, err)]; [err] is [None] for a nil error. *)
Definition checkSaveLogOption (fileLogSetting : Any)
  : bool * string * option string :=
  let path := "./log.json" in
  match fileLogSetting with
  | ABool v => (v, path, None)
  | AStr v => if String.eqb v "" then (false, path, None) else (true, v, None)
  | _ => (false, "",
          Some ("log will not be saved, invalid file log setting type: "
                ++ type_name_of fileLogSetting ++ ", expected bool or string"))
  end.

(** ** Decimal formatting of integers ([fmt.Sprintf("%d", n)]) *)

Definition digit_char (d : Z) : ascii := ascii_of_nat (48 + Z.to_nat d).

Fixpoint digits_aux (fuel : nat) (n : Z) (acc : string) : string :=
  match fuel with
  | O => acc
  | S fuel' =>
      let acc' := String (digit_char (n mod 10)%Z) acc in
      if Z.ltb n 10%Z then acc' else digits_aux fuel' (n / 10)%Z acc'
  end.

(** A positive number has at most as many decimal digits as bits. *)
Definition nat_digits (n : Z) : string :=
  digits_aux (S (Pos.size_nat (Z.to_pos (Z.max 1%Z n)))) n "".

Definition fmt_d (n : Z) : string :=
  if Z.ltb n 0%Z then "-" ++ nat_digits (- n)%Z else nat_digits n.

(** ** Time arithmetic *)

(** A [time.Time] is its instant in nanoseconds, counted from Go's zero
    time (January 1, year 1, 00:00:00 UTC), so [IsZero] is [t = 0]. *)
Definition IsZero (t : Z) : bool := Z.eqb t 0%Z.

Definition minDuration : Z := (- 2 ^ 63)%Z.
Definition maxDuration : Z := (2 ^ 63 - 1)%Z.

(** [t.Sub(u)]: saturates to the extreme durations on overflow. *)
Definition Sub (t u : Z) : Z :=
  let d := (t - u)%Z in
  if Z.leb minDuration d && Z.leb d maxDuration then d
  else if Z.ltb u t then maxDuration else minDuration.

(** [Duration.Milliseconds]: integer division truncating toward zero. *)
Definition Milliseconds (d : Z) : Z := Z.quot d 1000000%Z.

(** ** JSON encoding ([encoding/json]) *)

(** Lower-case hexadecimal digit, as in [encoding/json]'s table. *)
Definition hex_digit (n : nat) : ascii :=
  if Nat.ltb n 10 then ascii_of_nat (48 + n) else ascii_of_nat (87 + n).

Definition u00 (c : ascii) : string :=
  let n := nat_of_ascii c in
  "\u00" ++ String (hex_digit (n / 16)) (String (hex_digit (n mod 16)) "").

(** The double quote character. *)
Definition DQ : string := String (ascii_of_nat 34) "".

(** Escaping of one ASCII byte inside a JSON string, with the short
    escapes and the HTML-safe escapes that [json.Marshal] applies. *)
Definition escape_char (c : ascii) : string :=
  let n := nat_of_ascii c in
  if Nat.eqb n 34 then "\" ++ DQ
  else if Ascii.eqb c "\" then "\\"
  else if Nat.eqb n 8 then "\b"
  else if Nat.eqb n 12 then "\f"
  else if Nat.eqb n 10 then "\n"
  else if Nat.eqb n 13 then "\r"
  else if Nat.eqb n 9 then "\t"
  else if Nat.ltb n 32 then u00 c
  else if Ascii.eqb c "<" then "\u003c"
  else if Ascii.eqb c ">" then "\u003e"
  else if Ascii.eqb c "&" then "\u0026"
  else String c "".

Definition in_range (c : ascii) (lo hi : nat) : bool :=
  Nat.leb lo (nat_of_ascii c) && Nat.leb (nat_of_ascii c) hi.

(** [utf8.DecodeRune]: the length of the valid UTF-8 encoding of a
    non-ASCII rune at the head of [l], or [None] when the head is not one
    (the decoder then returns [RuneError] with size 1). *)
Definition utf8_len (l : list ascii) : option nat :=
  match l with
  | [] => None
  | b0 :: rest =>
      let n := nat_of_ascii b0 in
      let cont c := in_range c 128 191 in
      if in_range b0 194 223 then
        match rest with
        | b1 :: _ => if cont b1 then Some 2 else None
        | _ => None
        end
      else if in_range b0 224 239 then
        let '(lo, hi) :=
          if Nat.eqb n 224 then (160, 191)
          else if Nat.eqb n 237 then (128, 159) else (128, 191) in
        match rest with
        | b1 :: b2 :: _ => if in_range b1 lo hi && cont b2 then Some 3 else None
        | _ => None
        end
      else if in_range b0 240 244 then
        let '(lo, hi) :=
          if Nat.eqb n 240 then (144, 191)
          else if Nat.eqb n 244 then (128, 143) else (128, 191) in
        match rest with
        | b1 :: b2 :: b3 :: _ =>
            if in_range b1 lo hi && cont b2 && cont b3 then Some 4 else None
        | _ => None
        end
      else None
  end.

(** The UTF-8 encodings of U+2028 and U+2029. *)
Definition LS_bytes : list ascii := [ascii_of_nat 226; ascii_of_nat 128; ascii_of_nat 168].
Definition PS_bytes : list ascii := [ascii_of_nat 226; ascii_of_nat 128; ascii_of_nat 169].

Definition list_ascii_eqb (a b : list ascii) : bool :=
  String.eqb (string_of_list_ascii a) (string_of_list_ascii b).

(** [encodeState.string] on the bytes [l] (with [fuel] at least their
    number): ASCII bytes through [escape_char]; an invalid UTF-8 byte
    becomes "\ufffd"; U+2028 and U+2029 become "\u2028" and "\u2029";
    any other rune is copied. *)
Fixpoint escape_bytes (fuel : nat) (l : list ascii) : string :=
  match fuel with
  | O => ""
  | S fuel' =>
      match l with
      | [] => ""
      | b :: rest =>
          if Nat.ltb (nat_of_ascii b) 128 then escape_char b ++ escape_bytes fuel' rest
          else match utf8_len l with
               | None => "\ufffd" ++ escape_bytes fuel' rest
               | Some k =>
                   let seq := take k l in
                   (if list_ascii_eqb seq LS_bytes then "\u2028"
                    else if list_ascii_eqb seq PS_bytes then "\u2029"
                    else string_of_list_ascii seq)
                   ++ escape_bytes fuel' (drop k l)
               end
      end
  end.

Definition escape (s : string) : string :=
  escape_bytes (String.length s) (list_ascii_of_string s).

Definition quote (s : string) : string := DQ ++ escape s ++ DQ.

(** Member values of the objects the package serialises. *)
Inductive jval :=
| JNull
| JString (s : string).

Definition jval_text (v : jval) : string :=
  match v with
  | JNull => "null"
  | JString s => quote s
  end.

Fixpoint rep (n : nat) (s : string) : string :=
  match n with
  | O => ""
  | S n' => s ++ rep n' s
  end.

(** A line feed, Go's ["\n"]. *)
Definition LF : string := String (ascii_of_nat 10) "".

(** The line break that [json.Indent] emits before an element at depth [d]. *)
Definition nl (prefix indent : string) (d : nat) : string :=
  LF ++ prefix ++ rep d indent.

Definition indent_member (prefix indent : string) (d : nat)
    (kv : string * jval) : string :=
  nl prefix indent (S d) ++ quote kv.1 ++ ": " ++ jval_text kv.2.

(** An object at depth [d], as [json.MarshalIndent] lays it out. *)
Definition indent_object (prefix indent : string) (d : nat)
    (kvs : list (string * jval)) : string :=
  match kvs with
  | [] => "{}"
  | kv :: rest =>
      "{" ++ indent_member prefix indent d kv
      ++ String.concat "" (map (fun kv' => "," ++ indent_member prefix indent d kv') rest)
      ++ nl prefix indent d ++ "}"
  end.


(** ** The serialised record ([logToJSON]) *)

(** The struct [logToJSON]; the Go field names [Process], [User], ... are
    prefixed with [j] because [LogOptions] has fields of the same names. *)
Record logToJSON := mkLogToJSON {
  jClosingTime : string;   (* json:"time" *)
  jLevel : string;         (* json:"level" *)
  jProcess : string;       (* json:"process,omitempty" *)
  jDuration : string;      (* json:"duration,omitempty" *)
  jUser : string;          (* json:"user,omitempty" *)
  jMessage : string        (* json:"message" *)
}.

(** The zero value [var jsoner logToJSON]. *)
Definition empty_logToJSON : logToJSON := mkLogToJSON "" "" "" "" "" "".

(** A field tagged [omitempty] is left out when it holds [""]. *)
Definition omitempty (key v : string) : list (string * jval) :=
  if String.eqb v "" then [] else [(key, JString v)].

(** The members [json.Marshal] emits for a [logToJSON], in field order. *)
Definition record_fields (j : logToJSON) : list (string * jval) :=
  [("time", JString (jClosingTime j)); ("level", JString (jLevel j))]
  ++ omitempty "process" (jProcess j)
  ++ omitempty "duration" (jDuration j)
  ++ omitempty "user" (jUser j)
  ++ [("message", JString (jMessage j))].

(** [json.MarshalIndent(v, prefix, indent)] of one record. *)
Definition MarshalIndent (j : logToJSON) (prefix indent : string) : string :=
  indent_object prefix indent 0 (record_fields j).


(** ** File system *)

(** File contents are byte sequences. *)
Definition bytes := list ascii.
Definition bytes_of (s : string) : bytes := list_ascii_of_string s.

(** An entry: a directory or a regular file with its contents.  [writable]
    is whether the process may write the entry (as its permission bits
    grant it); every directory can be searched.  There are no symbolic
    links. *)
Inductive node :=
| NDir (writable : bool)
| NFile (writable : bool) (data : bytes).

(** The file system, keyed by absolute paths given as their components;
    the root is [[]]. *)
Abbreviation FS := (gmap (list string) node).

(** The system calls the sink makes, as seen by the fault oracle. *)
Inductive io_op := OStat | OMkdir | OCreate | OOpen | OFstat | OTruncate | OWrite.

(** The process environment: the working directory, and the I/O errors
    that do not come from the tree or its permissions (a full disk, a
    failing device): [fault o name] is the errno text that the call [o] on
    the path [name] fails with, if any; a failing write stores the first
    [short_write name] bytes of its buffer before failing. *)
Record Env := mkEnv {
  cwd : list string;
  fault : io_op -> string -> option string;
  short_write : string -> nat
}.

(** No call fails but for the tree and its permissions. *)
Definition fault_free (env : Env) : Prop :=
  forall o name, fault env o name = None.

(** The errno texts. *)
Definition ENOENT := "no such file or directory".
Definition ENOTDIR := "not a directory".
Definition EISDIR := "is a directory".
Definition EACCES := "permission denied".
Definition EEXIST := "file exists".
Definition EINVAL := "invalid argument".

(** [(&PathError{Op: op, Path: path, Err: err}).Error()]. *)
Definition PathError (op path err : string) : string :=
  op ++ " " ++ path ++ ": " ++ err.

(** *** Path strings *)

(** [strings.Split(s, "/")]. *)
Fixpoint split_slash (s : string) : list string :=
  match s with
  | EmptyString => [""]
  | String c rest =>
      if Ascii.eqb c "/" then "" :: split_slash rest
      else match split_slash rest with
           | p :: ps => String c p :: ps
           | [] => [String c ""]
           end
  end.

Definition rooted (s : string) : bool :=
  match s with String c _ => Ascii.eqb c "/" | EmptyString => false end.

(** One element of [filepath.Clean]'s scan: empty and "." elements are
    dropped; ".." removes the previous element unless that one is ".."
    too, is dropped at the root, and is kept at the start of a relative
    path. *)
Definition clean_step (rt : bool) (out : list string) (c : string) : list string :=
  if String.eqb c "" || String.eqb c "." then out
  else if String.eqb c ".." then
    match last out with
    | Some x => if String.eqb x ".." then (out ++ [".."])%list else removelast out
    | None => if rt then [] else [".."]
    end
  else (out ++ [c])%list.

(** The string [filepath.Clean] returns for the elements [out]. *)
Definition clean_path (rt : bool) (out : list string) : string :=
  if rt then "/" ++ join "/" out
  else match out with [] => "." | _ => join "/" out end.

(** [filepath.Clean]. *)
Definition Clean (s : string) : string :=
  clean_path (rooted s) (fold_left (clean_step (rooted s)) (split_slash s) []).

(** [filepath.Dir]: the path up to and including its last '/', cleaned. *)
Definition Dir (s : string) : string :=
  let cs := split_slash s in
  Clean (match cs with [_] => "" | _ => join "/" (removelast cs) ++ "/" end).

(** *** Path resolution (the kernel's walk) *)

(** The directory reached from [cur] through [cs], each being "", ".",
    ".." or the name of an existing directory. *)
Fixpoint walk (fs : FS) (cur : list string) (cs : list string) : string + list string :=
  match cs with
  | [] => inr cur
  | c :: rest =>
      if String.eqb c "" || String.eqb c "." then walk fs cur rest
      else if String.eqb c ".." then walk fs (removelast cur) rest
      else match fs !! (cur ++ [c])%list with
           | Some (NDir _) => walk fs (cur ++ [c])%list rest
           | Some (NFile _ _) => inl ENOTDIR
           | None => inl ENOENT
           end
  end.

Fixpoint drop_empty (r : list string) : list string :=
  match r with
  | c :: r' => if String.eqb c "" then drop_empty r' else r
  | [] => []
  end.

(** The elements leading to the last one, and the last one with whether
    the path ends in '/'; [None] when the path ends in "." or ".." or is
    the root, so that it denotes the directory reached. *)
Definition path_parts (s : string) : list string * option (string * bool) :=
  let r := rev (split_slash s) in
  let slash := match r with "" :: _ => true | _ => false end in
  match drop_empty r with
  | [] => ([], None)
  | c :: rd =>
      if String.eqb c "." || String.eqb c ".." then (rev (c :: rd), None)
      else (rev rd, Some (c, slash))
  end.

Definition start (env : Env) (s : string) : list string :=
  if rooted s then [] else cwd env.

(** The directory the path's last element is looked up in, with that
    element. *)
Definition resolve (env : Env) (fs : FS) (s : string)
  : string + (list string * option (string * bool)) :=
  if String.eqb s "" then inl ENOENT
  else
    let '(dcs, lst) := path_parts s in
    match walk fs (start env s) dcs with
    | inl e => inl e
    | inr d => inr (d, lst)
    end.

(** [stat(2)] (and [lstat(2)]: there are no links); the errno text on
    failure. *)
Definition stat (env : Env) (s : string) (fs : FS) : string + node :=
  match fault env OStat s with
  | Some e => inl e
  | None =>
      match resolve env fs s with
      | inl e => inl e
      | inr (d, None) =>
          match fs !! d with
          | Some (NDir wr) => inr (NDir wr)
          | Some (NFile _ _) => inl ENOTDIR
          | None => inl ENOENT
          end
      | inr (d, Some (c, slash)) =>
          match fs !! (d ++ [c])%list with
          | None => inl ENOENT
          | Some (NFile wr data) => if slash then inl ENOTDIR else inr (NFile wr data)
          | Some (NDir wr) => inr (NDir wr)
          end
      end
  end.

(** [mkdir(2)] with mode 0755: the new directory is writable by the
    process. *)
Definition mkdir (env : Env) (s : string) (fs : FS) : string + FS :=
  match fault env OMkdir s with
  | Some e => inl e
  | None =>
      match resolve env fs s with
      | inl e => inl e
      | inr (_, None) => inl EEXIST
      | inr (d, Some (c, _)) =>
          match fs !! (d ++ [c])%list with
          | Some _ => inl EEXIST
          | None =>
              match fs !! d with
              | Some (NDir true) => inr (<[(d ++ [c])%list := NDir true]> fs)
              | Some (NDir false) => inl EACCES
              | Some (NFile _ _) => inl ENOTDIR
              | None => inl ENOENT
              end
          end
      end
  end.

(** Reversed lists of bytes without a leading run of [c] bytes, or up to
    the first [c] byte. *)
Fixpoint drop_while_is (c : ascii) (r : list ascii) : list ascii :=
  match r with
  | x :: r' => if Ascii.eqb x c then drop_while_is c r' else r
  | [] => []
  end.

Fixpoint drop_while_not (c : ascii) (r : list ascii) : list ascii :=
  match r with
  | x :: r' => if Ascii.eqb x c then r else drop_while_not c r'
  | [] => []
  end.

(** The parent [os.MkdirAll] makes first: trailing '/' skipped, then the
    last element and the '/' before it removed; "" when there is no
    '/'.  *)
Definition mkdir_parent (path : string) : string :=
  let r := rev (list_ascii_of_string path) in
  match drop_while_not "/" (drop_while_is "/" r) with
  | [] => ""
  | _ :: r3 => string_of_list_ascii (rev r3)
  end.

(** [os.MkdirAll(path, 0755)], with [fuel] bounding the recursion (the
    parent is a strict prefix of [path], so its length suffices): the file
    system afterwards (directories made before a failure stay) and the
    error.  The parent is made first when it is not empty. *)
Fixpoint mkdirall (env : Env) (fuel : nat) (path : string) (fs : FS)
  : FS * option string :=
  match stat env path fs with
  | inr (NDir _) => (fs, None)
  | inr (NFile _ _) => (fs, Some (PathError "mkdir" path ENOTDIR))
  | inl _ =>
      let parent := mkdir_parent path in
      let '(fs1, perr) :=
        match fuel with
        | S fuel' =>
            if Nat.ltb 0 (String.length parent) then mkdirall env fuel' parent fs
            else (fs, None)
        | O => (fs, None)
        end in
      match perr with
      | Some e => (fs1, Some e)
      | None =>
          match mkdir env path fs1 with
          | inr fs2 => (fs2, None)
          | inl e =>
              (* Lstat: a directory there is a success *)
              match stat env path fs1 with
              | inr (NDir _) => (fs1, None)
              | _ => (fs1, Some (PathError "mkdir" path e))
              end
          end
      end
  end.

Definition MkdirAll (env : Env) (path : string) (fs : FS) : FS * option string :=
  mkdirall env (String.length path) path fs.

(** [fileExists]: [!os.IsNotExist(err)] of [os.Stat]. *)
Definition fileExists (env : Env) (filename : string) (fs : FS) : bool :=
  match stat env filename fs with
  | inr _ => true
  | inl e => negb (String.eqb e ENOENT)
  end.

(** [os.Create(name)], that is [open(name, O_RDWR|O_CREATE|O_TRUNC, 0666)]:
    the key of the opened file and the file system afterwards, or the
    errno text. *)
Definition Create (env : Env) (name : string) (fs : FS) : string + (list string * FS) :=
  match fault env OCreate name with
  | Some e => inl e
  | None =>
      match resolve env fs name with
      | inl e => inl e
      | inr (_, None) => inl EISDIR
      | inr (d, Some (c, slash)) =>
          let k := (d ++ [c])%list in
          match fs !! k with
          | Some (NDir _) => inl EISDIR
          | Some (NFile wr _) =>
              if slash then inl ENOTDIR
              else if wr then inr (k, <[k := NFile true []]> fs) else inl EACCES
          | None =>
              if slash then inl EISDIR
              else match fs !! d with
                   | Some (NDir true) => inr (k, <[k := NFile true []]> fs)
                   | Some (NDir false) => inl EACCES
                   | Some (NFile _ _) => inl ENOTDIR
                   | None => inl ENOENT
                   end
          end
      end
  end.

(** [os.OpenFile(name, os.O_RDWR, 0644)]: the key of the opened file and
    its contents, or the errno text. *)
Definition OpenFile (env : Env) (name : string) (fs : FS) : string + (list string * bytes) :=
  match fault env OOpen name with
  | Some e => inl e
  | None =>
      match resolve env fs name with
      | inl e => inl e
      | inr (d, None) =>
          match fs !! d with
          | Some (NDir _) => inl EISDIR
          | Some (NFile _ _) => inl ENOTDIR
          | None => inl ENOENT
          end
      | inr (d, Some (c, slash)) =>
          match fs !! (d ++ [c])%list with
          | None => inl ENOENT
          | Some (NDir _) => inl EISDIR
          | Some (NFile wr data) =>
              if slash then inl ENOTDIR
              else if wr then inr ((d ++ [c])%list, data) else inl EACCES
          end
      end
  end.

(** Writing [w] at offset [pos] of [d] (with [pos <= length d]). *)
Definition write_at (d : bytes) (pos : nat) (w : bytes) : bytes :=
  (take pos d ++ w ++ drop (pos + length w) d)%list.

(** [file.WriteString(w)] at offset [pos] of the file [k], opened as
    [name] and holding [d]: a failing write stores a prefix of [w]. *)
Definition write_file (env : Env) (name : string) (k : list string) (d : bytes)
    (pos : nat) (w : bytes) (fs : FS) : FS * option string :=
  match fault env OWrite name with
  | Some e =>
      (<[k := NFile true (write_at d pos (take (short_write env name) w))]> fs,
       Some (PathError "write" name e))
  | None => (<[k := NFile true (write_at d pos w)]> fs, None)
  end.

(** ** saveToFile *)

(** [saveToFile(jsoner, filePath)]: the file system afterwards, and the
    returned error ([None] for nil).  A failing step keeps the effects of
    the steps before it.  [json.MarshalIndent] of the record cannot fail,
    and the deferred [Close] calls do not change the result. *)
Definition saveToFile (env : Env) (jsoner : logToJSON) (filePath : string) (fs : FS)
  : FS * option string :=
  let dir := Dir filePath in
  match MkdirAll env dir fs with
  | (fs1, Some e) => (fs1, Some ("directory creation failed, " ++ e))
  | (fs1, None) =>
      let created :=
        if fileExists env filePath fs1 then inr fs1
        else match Create env filePath fs1 with
             | inl e => inl ("file creation failed, " ++ PathError "open" filePath e)
             | inr (_, fs2) => inr fs2
             end in
      match created with
      | inl e => (fs1, Some e)
      | inr fs2 =>
          match OpenFile env filePath fs2 with
          | inl e => (fs2, Some ("file open failed, " ++ PathError "open" filePath e))
          | inr (k, d) =>
              match fault env OFstat filePath with
              | Some e => (fs2, Some ("file stat failed, " ++ PathError "stat" filePath e))
              | None =>
                  let size := length d in
                  let jsonData := MarshalIndent jsoner "  " "  " in
                  if Nat.eqb size 0 then
                    let w := bytes_of ("[" ++ LF ++ "  " ++ jsonData ++ LF ++ "]") in
                    match write_file env filePath k d 0 w fs2 with
                    | (fs3, Some e) => (fs3, Some ("initial write failed, " ++ e))
                    | (fs3, None) => (fs3, None)
                    end
                  else
                    (* file.Truncate(stat.Size() - 1) *)
                    match fault env OTruncate filePath with
                    | Some e =>
                        (fs2, Some ("truncate failed, " ++ PathError "truncate" filePath e))
                    | None =>
                        let d1 := take (size - 1) d in
                        let fs3 := <[k := NFile true d1]> fs2 in
                        (* file.Seek(-1, io.SeekEnd) *)
                        if Nat.eqb (length d1) 0 then
                          (fs3, Some ("seek failed, " ++ PathError "seek" filePath EINVAL))
                        else
                          let off := length d1 - 1 in
                          let w := bytes_of ("," ++ LF ++ "  " ++ jsonData ++ LF ++ "]") in
                          match write_file env filePath k d1 off w fs3 with
                          | (fs4, Some e) => (fs4, Some ("append failed, " ++ e))
                          | (fs4, None) => (fs4, None)
                          end
                    end
              end
          end
      end
  end.

(** ** Logger, options and the console *)

(** [LogOptions]; a zero [StartTime] is the instant 0. *)
Record LogOptions := mkLogOptions {
  StartTime : Z;
  Process : string;
  User : string;
  FileLog : Any
}.

(** The zero value [var opts LogOptions]. *)
Definition zero_opts : LogOptions := mkLogOptions 0%Z "" "" ANil.

(** The options [o] with the field [FileLog] set to [v]. *)
Definition with_FileLog (o : LogOptions) (v : Any) : LogOptions :=
  mkLogOptions (StartTime o) (Process o) (User o) v.

(** [Logger]; the Go field [FileLog] is [LFileLog] here. *)
Record Logger := mkLogger { LFileLog : Any }.

Definition New : Logger := mkLogger (ABool false).

Definition SetDefaultFileLog (l : Logger) (fileLog : Any) : Logger :=
  mkLogger fileLog.

(** The state a log call acts on: the file system and the lines printed so
    far. *)
Record World := mkWorld { w_fs : FS; w_console : list string }.

Definition set_Level (j : logToJSON) (v : string) : logToJSON :=
  mkLogToJSON (jClosingTime j) v (jProcess j) (jDuration j) (jUser j) (jMessage j).
Definition set_Process (j : logToJSON) (v : string) : logToJSON :=
  mkLogToJSON (jClosingTime j) (jLevel j) v (jDuration j) (jUser j) (jMessage j).
Definition set_Duration (j : logToJSON) (v : string) : logToJSON :=
  mkLogToJSON (jClosingTime j) (jLevel j) (jProcess j) v (jUser j) (jMessage j).
Definition set_User (j : logToJSON) (v : string) : logToJSON :=
  mkLogToJSON (jClosingTime j) (jLevel j) (jProcess j) (jDuration j) v (jMessage j).
Definition set_Message (j : logToJSON) (v : string) : logToJSON :=
  mkLogToJSON (jClosingTime j) (jLevel j) (jProcess j) (jDuration j) (jUser j) v.
Definition set_ClosingTime (j : logToJSON) (v : string) : logToJSON :=
  mkLogToJSON v (jLevel j) (jProcess j) (jDuration j) (jUser j) (jMessage j).

(** [logParts[0] = v] *)
Definition set_head (v : string) (l : list string) : list string :=
  match l with [] => [] | _ :: rest => v :: rest end.

Definition bracket (level : string) : string := " [" ++ level ++ "]".

Definition mark_ok : string := " ✓".
Definition mark_fail : string := " x".

(** Outcome of a call to an entry point: a normal return, [os.Exit(code)],
    or a panic with the given value. *)
Inductive Outcome :=
| Returned
| Exited (code : Z)
| Panicked (value : string).

Section Logging.

(** [t.Format("2006-01-02 15:04:05")] in the local time zone. *)
Variable fmt_time : Z -> string.

(** The process environment the file sink runs in. *)
Variable env : Env.

(** [opts] of [logMessage]: the first variadic option, else the zero value. *)
Definition first_opts (options : list LogOptions) : LogOptions :=
  match options with o :: _ => o | [] => zero_opts end.

(** [fileLogSetting] of [logMessage]: the call's [FileLog] if it is not
    nil, else the logger's default. *)
Definition effective_file_log (l : Logger) (opts : LogOptions) : Any :=
  match FileLog opts with ANil => LFileLog l | v => v end.

(** Lines 136-166 of [logMessage]: the display parts and the record,
    built from the level, the message, the options and the clock reads
    [tcur] ([currentTime := time.Now()], taken only when [StartTime] is
    not zero) and [tclose] ([closingTime := time.Now()]). *)
Definition build_parts (level message : string) (opts : LogOptions)
    (tcur tclose : Z) : list string * logToJSON :=
  let jsoner := empty_logToJSON in
  let logParts := [bracket level] in
  let jsoner := set_Level jsoner level in
  let '(logParts, jsoner) :=
    if negb (String.eqb (Process opts) "")
    then ((logParts ++ [Process opts])%list, set_Process jsoner (Process opts))
    else (logParts, jsoner) in
  let '(logParts, jsoner) :=
    if negb (IsZero (StartTime opts))
    then let currentTime := tcur in
         let duration :=
           fmt_d (Milliseconds (Sub currentTime (StartTime opts))) ++ " ms" in
         ((logParts ++ [duration])%list, set_Duration jsoner duration)
    else (logParts, jsoner) in
  let '(logParts, jsoner) :=
    if negb (String.eqb (User opts) "")
    then ((logParts ++ [User opts])%list, set_User jsoner (User opts))
    else (logParts, jsoner) in
  let logParts := (logParts ++ [message])%list in
  let jsoner := set_Message jsoner message in
  let closingTime := tclose in
  let jsoner := set_ClosingTime jsoner (fmt_time closingTime) in
  (logParts, jsoner).

(** [l.logMessage(level, message, options...)]: the world after the call,
    whose console ends with the spinner's [FinalMSG], and the final value
    of [jsoner]. *)
Definition logMessage (l : Logger) (level message : string)
    (options : list LogOptions) (tcur tclose : Z) (w : World)
  : World * logToJSON :=
  let opts := first_opts options in
  let fileLogSetting := effective_file_log l opts in
  let '(logParts, jsoner) := build_parts level message opts tcur tclose in
  let closingTime := tclose in
  let '(shouldSaveToFile, filePath, err) := checkSaveLogOption fileLogSetting in
  let logParts :=
    match err with
    | Some e => (logParts ++ [("Error: " ++ e)%string])%list
    | None => logParts
    end in
  (* the FinalMSG set in the [err != nil] branch is overwritten below on
     every path, so it is not recorded *)
  if shouldSaveToFile then
    match saveToFile env jsoner filePath (w_fs w) with
    | (fs', Some e) =>
        let '(logParts, jsoner) :=
          if String.eqb level INFO
          then (set_head (bracket WARN) logParts, set_Level jsoner WARN)
          else (logParts, jsoner) in
        let logParts := (logParts ++ [("Error: " ++ e)%string])%list in
        let FinalMSG :=
          fmt_time closingTime ++ mark_fail ++ join " | " logParts ++ LF in
        (mkWorld fs' (w_console w ++ [FinalMSG])%list, jsoner)
    | (fs', None) =>
        let logParts := (logParts ++ ["Log saved!"])%list in
        let FinalMSG :=
          fmt_time closingTime ++ mark_ok ++ join " | " logParts ++ LF in
        (mkWorld fs' (w_console w ++ [FinalMSG])%list, jsoner)
    end
  else
    let FinalMSG :=
      fmt_time closingTime ++ mark_ok ++ join " | " logParts ++ LF in
    (mkWorld (w_fs w) (w_console w ++ [FinalMSG])%list, jsoner).

Definition Info (l : Logger) (message : string) (options : list LogOptions)
    (tcur tclose : Z) (w : World) : World * Outcome :=
  ((logMessage l INFO message options tcur tclose w).1, Returned).

Definition Warn (l : Logger) (message : string) (options : list LogOptions)
    (tcur tclose : Z) (w : World) : World * Outcome :=
  ((logMessage l WARN message options tcur tclose w).1, Returned).

(** [os.Exit(1)] after logging. *)
Definition Fatal (l : Logger) (message : string) (options : list LogOptions)
    (tcur tclose : Z) (w : World) : World * Outcome :=
  ((logMessage l FATAL message options tcur tclose w).1, Exited 1%Z).

(** [panic(message)] after logging. *)
Definition Panic (l : Logger) (message : string) (options : list LogOptions)
    (tcur tclose : Z) (w : World) : World * Outcome :=
  ((logMessage l PANIC message options tcur tclose w).1, Panicked message).

End Logging.

(** A deferred [recover()] around a computation: a panic is stopped and
    its value handed to the handler; a return or an [os.Exit] is not
    affected. *)
Definition with_recover (r : World * Outcome)
    (handler : string -> World -> World * Outcome) : World * Outcome :=
  match r with
  | (w, Panicked v) => handler v w
  | _ => r
  end.

(** ** A sequence of appends *)


(** ** The test entry points *)

(** The clock reads of [Test], [TestWithPanic] and [TestWithFatal]: the
    call numbered [k] reads [clk (3*k+1)] for its [currentTime] and
    [clk (3*k+2)] for its [closingTime]; a [time.Now()] in the arguments of
    call [k] is [clk (3*k)]. *)
Definition Clock := nat -> Z.

(** One [l.Info(message, options...)] statement, numbered [k], whose world
    is kept (its outcome is always [Returned]). *)
Definition test_info (fmt_time : Z -> string) (env : Env) (clk : Clock) (k : nat) (l : Logger)
    (message : string) (options : list LogOptions) (w : World) : World :=
  (Info fmt_time env l message options (clk (3 * k + 1)) (clk (3 * k + 2)) w).1.

(** Cases 1 to 7, common to the three entry points; [*l] is threaded
    through the [SetDefaultFileLog] calls. *)
Definition test_cases (fmt_time : Z -> string) (env : Env) (clk : Clock) (l : Logger) (w : World)
  : Logger * World :=
  let w := test_info fmt_time env clk 1 l "Test 1: Default settings - no file logging" [] w in
  let l := SetDefaultFileLog l (AStr "./logs/custom_default.json") in
  let w := test_info fmt_time env clk 2 l "Test 3: Default set to custom path" [] w in
  let w := test_info fmt_time env clk 3 l "Test 4: Override default path for single log"
             [mkLogOptions 0%Z "" "" (AStr "./logs/single_override.json")] w in
  let w := test_info fmt_time env clk 4 l "Test 5: Full features test"
             [mkLogOptions (clk (3 * 4)) "MainProcess" "TestUser"
                (AStr "./logs/full_test.json")] w in
  let w := test_info fmt_time env clk 5 l "Test 6: Error handling test"
             [mkLogOptions 0%Z "" "" (AStr "/invalid/path/test.json")] w in
  let l := SetDefaultFileLog l (ABool false) in
  let w := test_info fmt_time env clk 6 l "Test 7: Default false with override"
             [mkLogOptions 0%Z "" "" (ABool true)] w in
  let startTime := clk (3 * 7) in
  (* time.Sleep(200 * time.Millisecond) only advances the clock *)
  let w := test_info fmt_time env clk 7 l "Test 8: Process duration test"
             [mkLogOptions startTime "SlowProcess" "" (AStr "./logs/process_test.json")] w in
  (l, w).

(** [l.Test()]: the logger afterwards and the world. *)
Definition Test (fmt_time : Z -> string) (env : Env) (clk : Clock) (l : Logger) (w : World)
  : Logger * World :=
  test_cases fmt_time env clk l w.

(** [l.TestWithPanic()]: cases 1 to 7, then a [Panic] under the deferred
    [recover()], whose handler logs the recovery; the outcome of the call. *)
Definition TestWithPanic (fmt_time : Z -> string) (env : Env) (clk : Clock) (l : Logger) (w : World)
  : Logger * (World * Outcome) :=
  let '(l, w) := test_cases fmt_time env clk l w in
  let r := Panic fmt_time env l "Test 9: Panic test with options"
             [mkLogOptions 0%Z "PanicProcess" "TestUser" (AStr "./logs/panic_test.json")]
             (clk (3 * 8 + 1)) (clk (3 * 8 + 2)) w in
  (l, with_recover r (fun _ w =>
        Info fmt_time env l "Recovered from panic"
          [mkLogOptions 0%Z "PanicRecovery" "" (AStr "./logs/recovery.json")]
          (clk (3 * 9 + 1)) (clk (3 * 9 + 2)) w)).

(** [l.TestWithFatal()]: cases 1 to 7, then a [Fatal]. *)
Definition TestWithFatal (fmt_time : Z -> string) (env : Env) (clk : Clock) (l : Logger) (w : World)
  : Logger * (World * Outcome) :=
  let '(l, w) := test_cases fmt_time env clk l w in
  (l, Fatal fmt_time env l "Test 10: Fatal test with options"
        [mkLogOptions 0%Z "FatalProcess" "TestUser" (AStr "./logs/fatal_test.json")]
        (clk (3 * 8 + 1)) (clk (3 * 8 + 2)) w).

(** [w'] is [w] with [n] more lines printed. *)
Definition console_extends (n : nat) (w w' : World) : Prop :=
  exists lines, w_console w' = (w_console w ++ lines)%list /\ length lines = n.

(** ** Concrete worlds used by the examples *)

(** A working directory "/work" that can be written, under a root that
    cannot (so "/invalid/path/test.json", as in [Test], fails). *)
Definition fs_example : FS := <[["work"] := NDir true]> (<[[] := NDir false]> ∅).

(** The process runs in "/work" and no call hits an I/O error. *)
Definition env_example : Env := mkEnv ["work"] (fun _ _ => None) (fun _ => 0).

Definition world_example : World := mkWorld fs_example [].

(** A clock formatter returning one fixed timestamp. *)
Definition fixed_time (_ : Z) : string := "2024-01-02 03:04:05".


(** ** Paths as the properties name them *)

(** The textual resolution of the elements [cs] from [cur]: what the
    kernel's walk reaches when it succeeds. *)
Definition tstep (cur : list string) (c : string) : list string :=
  if String.eqb c "" || String.eqb c "." then cur
  else if String.eqb c ".." then removelast cur
  else (cur ++ [c])%list.

Definition twalk (cur : list string) (cs : list string) : list string :=
  fold_left tstep cs cur.

(** The key a path denotes once its directories are walked. *)
Definition abs_path (env : Env) (s : string) : list string :=
  let '(dcs, lst) := path_parts s in
  let d := twalk (start env s) dcs in
  match lst with None => d | Some (c, _) => (d ++ [c])%list end.

(** The key of the directory holding the entry [k]. *)
Definition parent_key (k : list string) : list string := removelast k.

Fixpoint has_slash (s : string) : bool :=
  match s with
  | EmptyString => false
  | String c rest => Ascii.eqb c "/" || has_slash rest
  end.

(** A path element as [strings.Split] yields it between two '/'. *)
Definition seg_ok (x : string) : bool :=
  negb (String.eqb x "") && negb (has_slash x).

(** A file or directory name: not empty, not "." or "..", no '/'. *)
Definition plain_name (x : string) : bool :=
  seg_ok x && negb (String.eqb x ".") && negb (String.eqb x "..").

(** How a path built from names starts: "/", nothing, or "./". *)
Inductive path_root := RAbs | RRel | RDot.

Definition is_abs (r : path_root) : bool :=
  match r with RAbs => true | _ => false end.

Definition path_string (r : path_root) (cs : list string) : string :=
  match r with
  | RAbs => "/" ++ join "/" cs
  | RRel => join "/" cs
  | RDot => "./" ++ join "/" cs
  end.

(** Every prefix of [ds] below [cur] is a directory. *)
Definition dirs_along (fs : FS) (cur ds : list string) : Prop :=
  forall i, 1 <= i <= length ds ->
  exists wr, fs !! (cur ++ take i ds)%list = Some (NDir wr).

(** The elements [strings.Split] yields before the names of a path built
    by [path_string]. *)
Definition root_elems (r : path_root) : list string :=
  match r with RAbs => [""] | RRel => [] | RDot => ["."] end.

Definition root_of (rt : bool) : path_root := if rt then RAbs else RRel.

(** [fs'] is [fs] with directories added: every entry of [fs] is kept, and
    a new entry is a writable directory inside a writable directory. *)
Definition grows (fs fs' : FS) : Prop :=
  forall k, fs' !! k = fs !! k
            \/ (fs !! k = None /\ fs' !! k = Some (NDir true)
                /\ fs' !! parent_key k = Some (NDir true)).
(** * Properties *)

(** ** Strings *)

Lemma append_cons (c : ascii) (a b : string) : String c a ++ b = String c (a ++ b).
Proof. reflexivity. Qed.

Lemma append_nil_l (b : string) : "" ++ b = b.
Proof. reflexivity. Qed.

Lemma append_empty_r (s : string) : s ++ "" = s.
Proof. induction s as [|c s IH].
  - done.
  - rewrite append_cons, IH. done. Qed.

Lemma append_assoc_str (a b c : string) : (a ++ b) ++ c = a ++ (b ++ c).
Proof. induction a as [|x a IH].
  - done.
  - rewrite !append_cons, IH. done. Qed.

Lemma ms_suffix_nonempty (a : string) : String.eqb (a ++ " ms") "" = false.
Proof. by destruct a. Qed.

Lemma bytes_of_app (a b : string) : bytes_of (a ++ b) = (bytes_of a ++ bytes_of b)%list.
Proof. induction a as [|c a IH].
  - done.
  - rewrite append_cons. unfold bytes_of in *. simpl. rewrite IH. done. Qed.

Lemma has_slash_app (a b : string) : has_slash (a ++ b) = has_slash a || has_slash b.
Proof.
  induction a as [|c a IH]; [reflexivity|].
  rewrite append_cons. cbn [has_slash]. rewrite IH, orb_assoc. reflexivity.
Qed.

Lemma seg_ok_spec (x : string) : seg_ok x = true -> x <> "" /\ has_slash x = false.
Proof.
  unfold seg_ok. intros H. apply andb_prop in H as [H1 H2].
  apply negb_true_iff in H1, H2. split; [|exact H2].
  intros ->. discriminate H1.
Qed.

Lemma plain_seg (x : string) : plain_name x = true -> seg_ok x = true.
Proof. unfold plain_name. intros H. apply andb_prop in H as [H _]. apply andb_prop in H as [H _]. exact H. Qed.

Lemma plain_not_dots (x : string) :
  plain_name x = true -> String.eqb x "" = false /\ String.eqb x "." = false /\ String.eqb x ".." = false.
Proof.
  unfold plain_name. intros H. apply andb_prop in H as [H H3]. apply andb_prop in H as [H H2].
  apply negb_true_iff in H2, H3. split; [|split; assumption].
  destruct (seg_ok_spec x H) as [Hne _]. apply String.eqb_neq. exact Hne.
Qed.

Lemma seg_not_empty (x : string) : seg_ok x = true -> String.eqb x "" = false.
Proof. intros H. apply String.eqb_neq. apply (seg_ok_spec x H). Qed.

Lemma seg_plain (x : string) :
  seg_ok x = true -> String.eqb x "." = false -> String.eqb x ".." = false -> plain_name x = true.
Proof. intros H1 H2 H3. unfold plain_name. rewrite H1, H2, H3. reflexivity. Qed.

Lemma plain_forall_seg (l : list string) :
  Forall (fun x => plain_name x = true) l -> Forall (fun x => seg_ok x = true) l.
Proof. intros H. eapply Forall_impl; [exact H|]. apply plain_seg. Qed.

Lemma forallb_Forall_plain (l : list string) :
  forallb plain_name l = true -> Forall (fun x => plain_name x = true) l.
Proof.
  intros H. apply Forall_forall. intros x Hx. apply list_elem_of_In in Hx.
  exact (proj1 (List.forallb_forall _ _) H x Hx).
Qed.

(** ** strings.Split and strings.Join *)

Lemma split_slash_nonempty (s : string) : split_slash s <> [].
Proof.
  induction s as [|c s IH]; cbn [split_slash]; [discriminate|].
  destruct (Ascii.eqb c "/"); [discriminate|].
  destruct (split_slash s); discriminate.
Qed.

Lemma split_slash_noslash (x : string) : has_slash x = false -> split_slash x = [x].
Proof.
  induction x as [|c x IH]; cbn [split_slash has_slash]; [reflexivity|].
  intros H. apply orb_false_iff in H as [H1 H2]. rewrite H1, IH by exact H2. reflexivity.
Qed.

Lemma split_slash_sep (a b : string) :
  split_slash (a ++ "/" ++ b) = (split_slash a ++ split_slash b)%list.
Proof.
  induction a as [|c a IH]; [reflexivity|].
  rewrite append_cons. cbn [split_slash].
  destruct (Ascii.eqb c "/"); [rewrite IH; reflexivity|].
  rewrite IH. destruct (split_slash a) as [|p ps] eqn:E;
    [exfalso; exact (split_slash_nonempty a E)|].
  reflexivity.
Qed.

Lemma split_slash_elems (s : string) : Forall (fun x => has_slash x = false) (split_slash s).
Proof.
  induction s as [|c s IH]; cbn [split_slash]; [constructor; [reflexivity|constructor]|].
  destruct (Ascii.eqb c "/") eqn:Hc; [constructor; [reflexivity|exact IH]|].
  destruct (split_slash s) as [|p ps]; [constructor; [cbn; rewrite Hc; reflexivity|constructor]|].
  inversion IH as [|? ? Hp Hps]; subst. constructor; [|exact Hps].
  cbn [has_slash]. rewrite Hc, Hp. reflexivity.
Qed.

Lemma join_cons2 (x y : string) (l : list string) :
  join "/" (x :: y :: l) = x ++ "/" ++ join "/" (y :: l).
Proof. reflexivity. Qed.

Lemma join_app_sep (xs ys : list string) :
  xs <> [] -> ys <> [] -> join "/" (xs ++ ys) = join "/" xs ++ "/" ++ join "/" ys.
Proof.
  intros Hx Hy. induction xs as [|x xs IH]; [congruence|].
  destruct xs as [|x' xs].
  - destruct ys as [|y ys]; [congruence|]. reflexivity.
  - change ((x :: x' :: xs) ++ ys)%list with (x :: x' :: (xs ++ ys))%list.
    rewrite join_cons2.
    change (x' :: (xs ++ ys))%list with ((x' :: xs) ++ ys)%list.
    rewrite IH by discriminate. rewrite join_cons2, append_assoc_str. reflexivity.
Qed.

Lemma join_snoc (xs : list string) (x : string) :
  xs <> [] -> join "/" (xs ++ [x]) = join "/" xs ++ "/" ++ x.
Proof. intros H. rewrite join_app_sep by (done || discriminate). reflexivity. Qed.

Lemma split_join (xs : list string) :
  xs <> [] -> Forall (fun x => has_slash x = false) xs -> split_slash (join "/" xs) = xs.
Proof.
  intros Hne Hall. induction xs as [|x xs IH]; [congruence|].
  inversion Hall as [|? ? Hx Hxs]; subst.
  destruct xs as [|y xs].
  - apply split_slash_noslash. exact Hx.
  - rewrite join_cons2, split_slash_sep, IH by (discriminate || exact Hxs).
    rewrite split_slash_noslash by exact Hx. reflexivity.
Qed.

Lemma rooted_app (a b : string) : a <> "" -> rooted (a ++ b) = rooted a.
Proof. destruct a; [congruence|reflexivity]. Qed.

Lemma rooted_noslash (x : string) : has_slash x = false -> rooted x = false.
Proof.
  destruct x as [|c x]; [reflexivity|]. cbn. intros H. apply orb_false_iff in H as [H _].
  exact H.
Qed.

Lemma join_rooted (x : string) (l : list string) :
  seg_ok x = true -> rooted (join "/" (x :: l)) = false.
Proof.
  intros H. destruct (seg_ok_spec x H) as [Hne Hs].
  destruct l as [|y l]; [apply rooted_noslash; exact Hs|].
  rewrite join_cons2, rooted_app by exact Hne. apply rooted_noslash. exact Hs.
Qed.

(** ** filepath.Clean and filepath.Dir *)

Lemma clean_path_false_ne (out : list string) : out <> [] -> clean_path false out = join "/" out.
Proof. destruct out; [congruence|reflexivity]. Qed.

Lemma clean_path_snoc (rt : bool) (xs : list string) (x : string) :
  xs <> [] -> clean_path rt (xs ++ [x]) = clean_path rt xs ++ "/" ++ x.
Proof.
  intros H. destruct rt.
  - unfold clean_path. rewrite join_snoc by exact H. reflexivity.
  - rewrite !clean_path_false_ne by (done || (destruct xs; [congruence|discriminate])).
    apply join_snoc. exact H.
Qed.

Lemma clean_path_as_path_string (rt : bool) (xs : list string) :
  xs <> [] -> clean_path rt xs = path_string (root_of rt) xs.
Proof. intros H. destruct rt; [reflexivity|]. apply clean_path_false_ne. exact H. Qed.

Lemma Forall_seg_noslash (l : list string) :
  Forall (fun x => seg_ok x = true) l -> Forall (fun x => has_slash x = false) l.
Proof. intros H. eapply Forall_impl; [exact H|]. intros x Hx. apply (seg_ok_spec x Hx). Qed.

Lemma split_path_string (r : path_root) (cs : list string) :
  cs <> [] -> Forall (fun x => seg_ok x = true) cs ->
  split_slash (path_string r cs) = (root_elems r ++ cs)%list.
Proof.
  intros Hne Hall. apply Forall_seg_noslash in Hall.
  destruct r; unfold path_string, root_elems.
  - change ("/" ++ join "/" cs) with ("" ++ "/" ++ join "/" cs).
    rewrite split_slash_sep, split_join by assumption. reflexivity.
  - rewrite split_join by assumption. reflexivity.
  - change ("./" ++ join "/" cs) with ("." ++ "/" ++ join "/" cs).
    rewrite split_slash_sep, split_join by assumption. reflexivity.
Qed.

Lemma rooted_join_app (x : string) (l : list string) (t : string) :
  seg_ok x = true -> rooted (join "/" (x :: l) ++ t) = false.
Proof.
  intros H. destruct (seg_ok_spec x H) as [Hne Hs].
  destruct l as [|y l].
  - cbn [join]. rewrite rooted_app by exact Hne. apply rooted_noslash. exact Hs.
  - rewrite join_cons2, append_assoc_str, rooted_app by exact Hne.
    apply rooted_noslash. exact Hs.
Qed.

Lemma rooted_path_string (r : path_root) (cs : list string) :
  cs <> [] -> Forall (fun x => seg_ok x = true) cs -> rooted (path_string r cs) = is_abs r.
Proof.
  intros Hne Hall. destruct r; [reflexivity| |reflexivity].
  destruct cs as [|x l]; [congruence|]. inversion Hall; subst.
  unfold path_string. rewrite <- (append_empty_r (join "/" (x :: l))).
  apply rooted_join_app. assumption.
Qed.

Lemma path_string_ne (r : path_root) (cs : list string) :
  cs <> [] -> Forall (fun x => seg_ok x = true) cs -> String.eqb (path_string r cs) "" = false.
Proof.
  intros Hne Hall. destruct r; [reflexivity| |reflexivity].
  destruct cs as [|x l]; [congruence|]. inversion Hall as [|? ? Hx _]; subst.
  destruct (seg_ok_spec x Hx) as [Hx' _].
  destruct l as [|y l]; cbn [path_string join].
  - apply String.eqb_neq. exact Hx'.
  - destruct x; [congruence|reflexivity].
Qed.

Lemma start_path_string (env : Env) (r : path_root) (cs : list string) :
  cs <> [] -> Forall (fun x => seg_ok x = true) cs ->
  start env (path_string r cs) = if is_abs r then [] else cwd env.
Proof. intros Hne Hall. unfold start. rewrite rooted_path_string by assumption. reflexivity. Qed.

Lemma rev_snoc_str (l : list string) (x : string) : rev (l ++ [x]) = x :: rev l.
Proof. rewrite rev_app_distr. reflexivity. Qed.

Lemma path_parts_snoc (s : string) (pre : list string) (x : string) :
  split_slash s = (pre ++ [x])%list -> x <> "" ->
  path_parts s =
  if String.eqb x "." || String.eqb x ".." then ((pre ++ [x])%list, None)
  else (pre, Some (x, false)).
Proof.
  intros Hs Hx. unfold path_parts. rewrite Hs, rev_snoc_str.
  destruct x as [|c x']; [congruence|].
  cbn [drop_empty]. replace (String.eqb (String c x') "") with false by reflexivity.
  destruct (String.eqb (String c x') "." || String.eqb (String c x') "..").
  - rewrite <- rev_snoc_str, rev_involutive. reflexivity.
  - rewrite rev_involutive. reflexivity.
Qed.

Lemma path_parts_path_string (r : path_root) (ds : list string) (name : string) :
  Forall (fun x => seg_ok x = true) ds -> plain_name name = true ->
  path_parts (path_string r (ds ++ [name])) = ((root_elems r ++ ds)%list, Some (name, false)).
Proof.
  intros Hds Hn. destruct (plain_not_dots name Hn) as (H0 & H1 & H2).
  rewrite (path_parts_snoc _ (root_elems r ++ ds) name).
  - rewrite H1, H2. reflexivity.
  - rewrite split_path_string.
    + rewrite app_assoc. reflexivity.
    + destruct ds; discriminate.
    + apply Forall_app. split; [exact Hds|]. constructor; [apply plain_seg; exact Hn|constructor].
  - apply String.eqb_neq. exact H0.
Qed.

(** ** The textual walk *)

Lemma twalk_app (cur xs ys : list string) : twalk cur (xs ++ ys) = twalk (twalk cur xs) ys.
Proof. unfold twalk. apply fold_left_app. Qed.

Lemma tstep_plain (cur : list string) (x : string) :
  plain_name x = true -> tstep cur x = (cur ++ [x])%list.
Proof.
  intros H. destruct (plain_not_dots x H) as (H0 & H1 & H2).
  unfold tstep. rewrite H0, H1, H2. reflexivity.
Qed.

Lemma twalk_plain (ds : list string) :
  Forall (fun x => plain_name x = true) ds -> forall cur, twalk cur ds = (cur ++ ds)%list.
Proof.
  induction ds as [|d ds IH]; intros Hall cur; [by rewrite app_nil_r|].
  inversion Hall as [|? ? Hd Hds]; subst.
  change (twalk cur (d :: ds)) with (twalk (tstep cur d) ds).
  rewrite tstep_plain by exact Hd. rewrite IH by exact Hds.
  rewrite <- app_assoc. reflexivity.
Qed.

Lemma twalk_root_elems (r : path_root) (cur ds : list string) :
  twalk cur (root_elems r ++ ds) = twalk cur ds.
Proof. destruct r; reflexivity. Qed.

Lemma twalk_root_bool (rt : bool) (cur ds : list string) :
  twalk cur ((if rt then [""] else []) ++ ds) = twalk cur ds.
Proof. destruct rt; reflexivity. Qed.

(** ** The kernel's walk *)

Lemma walk_twalk (fs : FS) (cs cur d : list string) :
  walk fs cur cs = inr d -> d = twalk cur cs.
Proof.
  revert cur. induction cs as [|c cs IH]; intros cur H; cbn [walk] in H.
  - injection H as <-. reflexivity.
  - change (twalk cur (c :: cs)) with (twalk (tstep cur c) cs). unfold tstep.
    destruct (String.eqb c "" || String.eqb c "."); [apply IH; exact H|].
    destruct (String.eqb c ".."); [apply IH; exact H|].
    destruct (fs !! (cur ++ [c])%list) as [[wr|wr data]|]; try discriminate.
    apply IH. exact H.
Qed.

Lemma walk_app (fs : FS) (xs ys cur : list string) :
  walk fs cur (xs ++ ys) =
  match walk fs cur xs with inl e => inl e | inr d => walk fs d ys end.
Proof.
  revert cur. induction xs as [|c xs IH]; intros cur; [reflexivity|].
  cbn [app walk].
  destruct (String.eqb c "" || String.eqb c "."); [apply IH|].
  destruct (String.eqb c ".."); [apply IH|].
  destruct (fs !! (cur ++ [c])%list) as [[wr|wr data]|]; [apply IH|reflexivity|reflexivity].
Qed.

Lemma walk_root_elems (fs : FS) (r : path_root) (cur ds : list string) :
  walk fs cur (root_elems r ++ ds) = walk fs cur ds.
Proof. destruct r; reflexivity. Qed.

Lemma walk_root_bool (fs : FS) (rt : bool) (cur ds : list string) :
  walk fs cur ((if rt then [""] else []) ++ ds) = walk fs cur ds.
Proof. destruct rt; reflexivity. Qed.

(** Adding an entry that is not on the way does not change a walk. *)
Lemma walk_insert (fs : FS) (cs cur d k : list string) (n : node) :
  walk fs cur cs = inr d ->
  (forall wr, fs !! k <> Some (NDir wr)) ->
  walk (<[k := n]> fs) cur cs = inr d.
Proof.
  revert cur. induction cs as [|c cs IH]; intros cur H Hk; cbn [walk] in *; [exact H|].
  destruct (String.eqb c "" || String.eqb c "."); [apply IH; assumption|].
  destruct (String.eqb c ".."); [apply IH; assumption|].
  destruct (fs !! (cur ++ [c])%list) as [[wr|wr data]|] eqn:Hl; try discriminate.
  rewrite lookup_insert_ne by (intros ->; exact (Hk wr Hl)).
  rewrite Hl. apply IH; assumption.
Qed.

Lemma walk_plain_dirs (fs : FS) (ds : list string) :
  Forall (fun x => plain_name x = true) ds ->
  forall cur, dirs_along fs cur ds -> walk fs cur ds = inr (cur ++ ds)%list.
Proof.
  induction ds as [|x ds IH] using rev_ind; intros Hall cur Hd.
  - rewrite app_nil_r. reflexivity.
  - apply Forall_app in Hall as [Hds Hx]. inversion Hx as [|? ? Hx' _]; subst.
    rewrite walk_app, IH.
    + cbn [walk]. destruct (plain_not_dots x Hx') as (H0 & H1 & H2).
      rewrite H0, H1, H2. cbn [orb].
      destruct (Hd (length (ds ++ [x]))) as [wr Hwr].
      { rewrite length_app. simpl. lia. }
      rewrite take_ge in Hwr by lia. rewrite app_assoc in Hwr. rewrite Hwr.
      rewrite app_assoc. reflexivity.
    + exact Hds.
    + intros i Hi. destruct (Hd i) as [wr Hwr].
      { rewrite length_app. simpl. lia. }
      exists wr. rewrite take_app_le in Hwr by lia. exact Hwr.
Qed.

Lemma walk_plain_ok (fs : FS) (ds : list string) :
  Forall (fun x => plain_name x = true) ds ->
  forall cur d, walk fs cur ds = inr d -> dirs_along fs cur ds.
Proof.
  induction ds as [|x ds IH] using rev_ind; intros Hall cur d Hw.
  - intros i Hi. simpl in Hi. lia.
  - apply Forall_app in Hall as [Hds Hx]. inversion Hx as [|? ? Hx' _]; subst.
    rewrite walk_app in Hw.
    destruct (walk fs cur ds) as [e|d0] eqn:Hw0; [discriminate|].
    pose proof (walk_twalk _ _ _ _ Hw0) as Ht. rewrite twalk_plain in Ht by exact Hds. subst d0.
    cbn [walk] in Hw. destruct (plain_not_dots x Hx') as (H0 & H1 & H2).
    rewrite H0, H1, H2 in Hw. cbn [orb] in Hw.
    intros i Hi. rewrite length_app in Hi. simpl in Hi.
    destruct (decide (i = length ds + 1)) as [->|Hne].
    + rewrite take_ge by (rewrite length_app; simpl; lia).
      destruct (fs !! ((cur ++ ds) ++ [x])%list) as [[wr|wr data]|] eqn:Hl; try discriminate.
      exists wr. rewrite app_assoc. exact Hl.
    + rewrite take_app_le by lia. apply (IH Hds cur (cur ++ ds)%list Hw0). lia.
Qed.

(** ** filepath.Dir of a path built from names *)

Lemma Dir_by_length (s : string) :
  Dir s = Clean (if Nat.eqb (length (split_slash s)) 1 then ""
                 else join "/" (removelast (split_slash s)) ++ "/").
Proof. unfold Dir. destruct (split_slash s) as [|a [|b l]]; reflexivity. Qed.

Lemma fold_clean_plain (rt : bool) (ds : list string) :
  Forall (fun x => plain_name x = true) ds ->
  forall out, fold_left (clean_step rt) ds out = (out ++ ds)%list.
Proof.
  induction ds as [|d ds IH]; intros Hall out; [by rewrite app_nil_r|].
  inversion Hall as [|? ? Hd Hds]; subst. cbn [fold_left].
  destruct (plain_not_dots d Hd) as (H0 & H1 & H2).
  unfold clean_step at 2. rewrite H0, H1, H2. cbn [orb].
  rewrite IH by exact Hds. rewrite <- app_assoc. reflexivity.
Qed.

Lemma Dir_path_string (r : path_root) (ds : list string) (name : string) :
  Forall (fun x => plain_name x = true) ds -> plain_name name = true ->
  Dir (path_string r (ds ++ [name])) = clean_path (is_abs r) ds.
Proof.
  intros Hds Hn. pose proof (plain_forall_seg _ Hds) as Hds'.
  assert (Hcs : Forall (fun x => seg_ok x = true) (ds ++ [name])).
  { apply Forall_app. split; [exact Hds'|]. constructor; [apply plain_seg; exact Hn|constructor]. }
  rewrite Dir_by_length, split_path_string by (done || (destruct ds; discriminate)).
  rewrite app_assoc, length_app. cbn [length].
  destruct (decide ((root_elems r ++ ds)%list = [])) as [E|E].
  - apply app_eq_nil in E as [Er ->]. destruct r; try discriminate. reflexivity.
  - replace (Nat.eqb (length (root_elems r ++ ds) + 1) 1) with false
      by (symmetry; apply Nat.eqb_neq; intros Hl;
          apply E, length_zero_iff_nil; lia).
    rewrite removelast_last.
    set (J := join "/" (root_elems r ++ ds)).
    assert (Hsp : split_slash (J ++ "/") = ((root_elems r ++ ds) ++ [""])%list).
    { rewrite <- (append_empty_r "/"), split_slash_sep. unfold J.
      rewrite split_join by (exact E || (apply Forall_app; split;
        [destruct r; repeat constructor | apply Forall_seg_noslash; exact Hds'])).
      reflexivity. }
    assert (Hrt : rooted (J ++ "/") = is_abs r).
    { unfold J. destruct r; cbn [root_elems app is_abs].
      - destruct ds as [|d ds]; [reflexivity|]. rewrite join_cons2. reflexivity.
      - destruct ds as [|d ds]; [exfalso; apply E; reflexivity|]. inversion Hds'; subst.
        apply rooted_join_app. assumption.
      - apply rooted_join_app. reflexivity. }
    unfold Clean. rewrite Hrt, Hsp, !fold_left_app.
    destruct r; cbn [root_elems fold_left];
      rewrite fold_clean_plain by exact Hds; reflexivity.
Qed.

(** ** Resolution and the system calls *)

Lemma resolve_inv (env : Env) (fs : FS) (s : string) (d : list string)
    (lst : option (string * bool)) :
  resolve env fs s = inr (d, lst) ->
  exists dcs, path_parts s = (dcs, lst) /\ walk fs (start env s) dcs = inr d.
Proof.
  unfold resolve. destruct (String.eqb s ""); [discriminate|].
  destruct (path_parts s) as [dcs lst'] eqn:Hp.
  destruct (walk fs (start env s) dcs) as [e|d'] eqn:Hw; [discriminate|].
  intros H. injection H as <- <-. eauto.
Qed.

Lemma resolve_some_key (env : Env) (fs : FS) (s : string) (d : list string) (c : string) (b : bool) :
  resolve env fs s = inr (d, Some (c, b)) -> (d ++ [c])%list = abs_path env s.
Proof.
  intros H. destruct (resolve_inv _ _ _ _ _ H) as (dcs & Hp & Hw).
  unfold abs_path. rewrite Hp. rewrite (walk_twalk _ _ _ _ Hw). reflexivity.
Qed.

Lemma resolve_none_key (env : Env) (fs : FS) (s : string) (d : list string) :
  resolve env fs s = inr (d, None) -> d = abs_path env s.
Proof.
  intros H. destruct (resolve_inv _ _ _ _ _ H) as (dcs & Hp & Hw).
  unfold abs_path. rewrite Hp. exact (walk_twalk _ _ _ _ Hw).
Qed.

Lemma resolve_insert (env : Env) (fs : FS) (s : string) r (k : list string) (n : node) :
  resolve env fs s = inr r -> (forall wr, fs !! k <> Some (NDir wr)) ->
  resolve env (<[k := n]> fs) s = inr r.
Proof.
  unfold resolve. destruct (String.eqb s ""); [discriminate|].
  destruct (path_parts s) as [dcs lst].
  destruct (walk fs (start env s) dcs) as [e|d] eqn:Hw; [discriminate|].
  intros H Hk. rewrite (walk_insert _ _ _ _ _ _ Hw Hk). exact H.
Qed.

Lemma stat_lookup (env : Env) (s : string) (fs : FS) (n : node) :
  stat env s fs = inr n -> fs !! abs_path env s = Some n.
Proof.
  unfold stat. destruct (fault env OStat s); [discriminate|].
  destruct (resolve env fs s) as [e|[d [[c sl]|]]] eqn:Hr; [discriminate| |].
  - rewrite <- (resolve_some_key _ _ _ _ _ _ Hr).
    destruct (fs !! (d ++ [c])%list) as [[wr|wr dd]|]; try discriminate.
    + intros H. injection H as <-. reflexivity.
    + destruct sl; [discriminate|]. intros H. injection H as <-. reflexivity.
  - rewrite <- (resolve_none_key _ _ _ _ Hr).
    destruct (fs !! d) as [[wr|wr dd]|]; try discriminate.
    intros H. injection H as <-. reflexivity.
Qed.



Lemma not_dir_of_none (fs : FS) (k : list string) :
  fs !! k = None -> forall wr', fs !! k <> Some (NDir wr').
Proof. intros H wr'. rewrite H. discriminate. Qed.




Lemma removelast_snoc_str (d : list string) (c : string) :
  parent_key (d ++ [c])%list = d.
Proof. apply removelast_last. Qed.

Lemma snoc_neq (d : list string) (c : string) : (d ++ [c])%list <> d.
Proof. intros H. apply (f_equal length) in H. rewrite length_app in H. simpl in H. lia. Qed.

Lemma mkdir_key (env : Env) (q : string) (fs fs' : FS) :
  mkdir env q fs = inr fs' ->
  fs !! abs_path env q = None
  /\ fs !! parent_key (abs_path env q) = Some (NDir true)
  /\ fs' = <[abs_path env q := NDir true]> fs
  /\ exists dd c sl, resolve env fs q = inr (dd, Some (c, sl)).
Proof.
  unfold mkdir. destruct (fault env OMkdir q); [discriminate|].
  destruct (resolve env fs q) as [e|[dd [[c sl]|]]] eqn:Hr; [discriminate| |discriminate].
  rewrite <- (resolve_some_key _ _ _ _ _ _ Hr), removelast_snoc_str.
  destruct (fs !! (dd ++ [c])%list) eqn:Hk; [discriminate|].
  destruct (fs !! dd) as [[[|]|wr d]|] eqn:Hd; try discriminate.
  intros H. injection H as <-. eauto 10.
Qed.

Lemma mkdir_stat (env : Env) (q : string) (fs fs' : FS) :
  mkdir env q fs = inr fs' -> fault env OStat q = None ->
  stat env q fs' = inr (NDir true).
Proof.
  intros H Hf. destruct (mkdir_key _ _ _ _ H) as (Hk & _ & -> & dd & c & sl & Hr).
  unfold stat. rewrite Hf, (resolve_insert _ _ _ _ _ _ Hr (not_dir_of_none _ _ Hk)).
  rewrite (resolve_some_key _ _ _ _ _ _ Hr), lookup_insert_eq. reflexivity.
Qed.

Lemma grows_refl (fs : FS) : grows fs fs.
Proof. intros k. left. reflexivity. Qed.

Lemma grows_trans (a b c : FS) : grows a b -> grows b c -> grows a c.
Proof.
  intros Hab Hbc k. destruct (Hab k) as [E1|(N1 & D1 & P1)]; destruct (Hbc k) as [E2|(N2 & D2 & P2)].
  - left. congruence.
  - right. split; [congruence|]. split; assumption.
  - right. split; [exact N1|]. split; [congruence|].
    destruct (Hbc (parent_key k)) as [E3|(N3 & _ & _)]; congruence.
  - congruence.
Qed.

Lemma grows_mkdir (env : Env) (q : string) (fs fs' : FS) :
  mkdir env q fs = inr fs' -> grows fs fs'.
Proof.
  intros H. destruct (mkdir_key _ _ _ _ H) as (Hk & Hp & -> & dd & c & sl & Hr).
  intros k. destruct (decide (k = abs_path env q)) as [->|Hne].
  - right. split; [exact Hk|]. split; [apply lookup_insert_eq|].
    rewrite lookup_insert_ne; [exact Hp|].
    rewrite <- (resolve_some_key _ _ _ _ _ _ Hr), removelast_snoc_str.
    intros E. exact (snoc_neq _ _ E).
  - left. apply lookup_insert_ne. congruence.
Qed.

Lemma grows_keeps (fs fs' : FS) (k : list string) (n : node) :
  grows fs fs' -> fs !! k = Some n -> fs' !! k = Some n.
Proof. intros H Hk. destruct (H k) as [E|(N & _ & _)]; congruence. Qed.

Lemma Create_key (env : Env) (s : string) (fs fs' : FS) (k : list string) :
  Create env s fs = inr (k, fs') ->
  k = abs_path env s /\ fs' = <[k := NFile true []]> fs
  /\ ((exists d, fs !! k = Some (NFile true d))
      \/ (fs !! k = None /\ fs !! parent_key k = Some (NDir true)))
  /\ exists dd c, resolve env fs s = inr (dd, Some (c, false)).
Proof.
  unfold Create. destruct (fault env OCreate s); [discriminate|].
  destruct (resolve env fs s) as [e|[dd [[c sl]|]]] eqn:Hr; [discriminate| |discriminate].
  rewrite <- (resolve_some_key _ _ _ _ _ _ Hr).
  destruct (fs !! (dd ++ [c])%list) as [[wr|wr d]|] eqn:Hk; [discriminate| |].
  - destruct sl; [discriminate|]. destruct wr; [|discriminate].
    intros H. injection H as <- <-. split; [reflexivity|]. split; [reflexivity|].
    split; [left; eauto|eauto].
  - destruct sl; [discriminate|].
    destruct (fs !! dd) as [[[|]|wr d]|] eqn:Hd; try discriminate.
    intros H. injection H as <- <-. split; [reflexivity|]. split; [reflexivity|].
    split; [right; rewrite removelast_snoc_str; auto|eauto].
Qed.

Lemma OpenFile_key (env : Env) (s : string) (fs : FS) (k : list string) (d : bytes) :
  OpenFile env s fs = inr (k, d) -> k = abs_path env s /\ fs !! k = Some (NFile true d).
Proof.
  unfold OpenFile. destruct (fault env OOpen s); [discriminate|].
  destruct (resolve env fs s) as [e|[dd [[c sl]|]]] eqn:Hr; [discriminate| |].
  - rewrite <- (resolve_some_key _ _ _ _ _ _ Hr).
    destruct (fs !! (dd ++ [c])%list) as [[wr|wr d']|] eqn:Hk; try discriminate.
    destruct sl; [discriminate|]. destruct wr; [|discriminate].
    intros H. injection H as <- <-. auto.
  - destruct (fs !! dd) as [[wr|wr d']|]; discriminate.
Qed.


Lemma OpenFile_of_stat_dir (env : Env) (s : string) (fs : FS) (wr : bool) :
  fault env OOpen s = None -> stat env s fs = inr (NDir wr) ->
  OpenFile env s fs = inl EISDIR.
Proof.
  intros Ho H. pose proof (stat_lookup _ _ _ _ H) as Hl.
  unfold stat in H. destruct (fault env OStat s); [discriminate|].
  unfold OpenFile. rewrite Ho.
  destruct (resolve env fs s) as [e|[dd [[c sl]|]]] eqn:Hr; [discriminate| |].
  - rewrite (resolve_some_key _ _ _ _ _ _ Hr), Hl. reflexivity.
  - rewrite (resolve_none_key _ _ _ _ Hr), Hl. reflexivity.
Qed.

(** ** The parent [os.MkdirAll] makes first *)

Lemma noslash_bytes (x : string) :
  has_slash x = false -> Forall (fun c => Ascii.eqb c "/" = false) (bytes_of x).
Proof.
  induction x as [|c x IH]; intros H; [constructor|].
  cbn [has_slash] in H. apply orb_false_iff in H as [H1 H2].
  constructor; [exact H1|]. exact (IH H2).
Qed.

Lemma drop_while_not_skip (l r : list ascii) :
  Forall (fun c => Ascii.eqb c "/" = false) l ->
  drop_while_not "/" (l ++ r) = drop_while_not "/" r.
Proof.
  induction l as [|c l IH]; intros H; [reflexivity|].
  inversion H as [|? ? Hc Hl]; subst. cbn [app drop_while_not]. rewrite Hc. exact (IH Hl).
Qed.

Lemma drop_while_is_keep (l : list ascii) :
  Forall (fun c => Ascii.eqb c "/" = false) l -> drop_while_is "/" l = l.
Proof. intros H. destruct l as [|c l]; [reflexivity|]. inversion H; subst. cbn. rewrite H2. reflexivity. Qed.

Lemma drop_while_is_keep_app (l r : list ascii) :
  l <> [] -> Forall (fun c => Ascii.eqb c "/" = false) l -> drop_while_is "/" (l ++ r) = (l ++ r)%list.
Proof. intros Hne H. destruct l as [|c l]; [congruence|]. inversion H; subst. cbn. rewrite H2. reflexivity. Qed.

Lemma bytes_of_nonempty (x : string) : x <> "" -> bytes_of x <> [].
Proof. destruct x; [congruence|discriminate]. Qed.

Lemma mkdir_parent_sep (Q x : string) :
  x <> "" -> has_slash x = false -> mkdir_parent (Q ++ "/" ++ x) = Q.
Proof.
  intros Hne Hs. unfold mkdir_parent.
  change (list_ascii_of_string (Q ++ "/" ++ x)) with (bytes_of (Q ++ "/" ++ x)).
  rewrite !bytes_of_app. change (bytes_of "/") with ["/"%char].
  rewrite !rev_app_distr. cbn [rev app]. rewrite <- ?app_assoc. cbn [app].
  pose proof (noslash_bytes x Hs) as Hx. apply Forall_rev in Hx.
  rewrite drop_while_is_keep_app.
  - rewrite drop_while_not_skip by exact Hx. cbn [drop_while_not].
    replace (Ascii.eqb "/" "/") with true by reflexivity.
    rewrite rev_involutive. apply string_of_list_ascii_of_string.
  - intros E. apply (bytes_of_nonempty x Hne). apply (f_equal (@rev ascii)) in E.
    rewrite rev_involutive in E. exact E.
  - exact Hx.
Qed.

Lemma mkdir_parent_noslash (x : string) : has_slash x = false -> mkdir_parent x = "".
Proof.
  intros Hs. unfold mkdir_parent.
  change (list_ascii_of_string x) with (bytes_of x).
  pose proof (noslash_bytes x Hs) as Hx. apply Forall_rev in Hx.
  rewrite drop_while_is_keep by exact Hx.
  rewrite <- (app_nil_r (rev (bytes_of x))), drop_while_not_skip by exact Hx.
  reflexivity.
Qed.

Lemma mkdir_parent_clean (rt : bool) (xs : list string) (x : string) :
  seg_ok x = true ->
  mkdir_parent (clean_path rt (xs ++ [x])) = match xs with [] => "" | _ => clean_path rt xs end.
Proof.
  intros Hx. destruct (seg_ok_spec x Hx) as [Hne Hs]. destruct xs as [|y ys].
  - destruct rt.
    + change (clean_path true ([] ++ [x])) with ("" ++ "/" ++ x). apply mkdir_parent_sep; assumption.
    + apply mkdir_parent_noslash. exact Hs.
  - rewrite clean_path_snoc by discriminate. apply mkdir_parent_sep; assumption.
Qed.

Lemma mkdir_parent_clean_nil (rt : bool) : mkdir_parent (clean_path rt []) = "".
Proof. destruct rt; reflexivity. Qed.

(** ** Lengths *)

Lemma length_append_str (a b : string) : String.length (a ++ b) = String.length a + String.length b.
Proof. induction a as [|c a IH]; simpl; [reflexivity|]. rewrite IH. reflexivity. Qed.

Lemma join_length (l : list string) :
  Forall (fun x => seg_ok x = true) l -> length l <= String.length (join "/" l).
Proof.
  induction l as [|x [|y l] IH]; intros H; [simpl; lia| |].
  - inversion H as [|? ? Hx _]; subst. destruct (seg_ok_spec x Hx) as [Hne _].
    destruct x; [congruence|]. simpl. lia.
  - inversion H as [|? ? Hx Hl]; subst. destruct (seg_ok_spec x Hx) as [Hne _].
    rewrite join_cons2, !length_append_str. specialize (IH Hl).
    destruct x; [congruence|]. simpl in *. lia.
Qed.

Lemma clean_path_length (rt : bool) (l : list string) :
  Forall (fun x => seg_ok x = true) l -> length l <= String.length (clean_path rt l).
Proof.
  intros H. pose proof (join_length l H). destruct rt; unfold clean_path.
  - change (String.length ("/" ++ join "/" l)) with (S (String.length (join "/" l))). lia.
  - destruct l; [simpl; lia|exact H0].
Qed.

Lemma clean_path_pos (rt : bool) (l : list string) :
  l <> [] -> Forall (fun x => seg_ok x = true) l -> 0 < String.length (clean_path rt l).
Proof.
  intros Hne H. pose proof (clean_path_length rt l H).
  destruct l; [congruence|]. simpl in *. lia.
Qed.

(** ** Clean paths *)

Lemma rooted_clean (rt : bool) (l : list string) :
  Forall (fun x => seg_ok x = true) l -> rooted (clean_path rt l) = rt.
Proof.
  intros H. destruct l as [|x l]; [destruct rt; reflexivity|].
  rewrite clean_path_as_path_string by discriminate.
  rewrite rooted_path_string by (discriminate || exact H). destruct rt; reflexivity.
Qed.

Lemma start_clean (env : Env) (rt : bool) (l : list string) :
  Forall (fun x => seg_ok x = true) l ->
  start env (clean_path rt l) = if rt then [] else cwd env.
Proof. intros H. unfold start. rewrite rooted_clean by exact H. reflexivity. Qed.

Lemma split_clean (rt : bool) (l : list string) :
  l <> [] -> Forall (fun x => seg_ok x = true) l ->
  split_slash (clean_path rt l) = (root_elems (root_of rt) ++ l)%list.
Proof.
  intros Hne H. rewrite clean_path_as_path_string by exact Hne.
  apply split_path_string; assumption.
Qed.

Lemma path_parts_clean_snoc (rt : bool) (l : list string) (x : string) :
  Forall (fun y => seg_ok y = true) (l ++ [x]) ->
  path_parts (clean_path rt (l ++ [x])) =
  if String.eqb x "." || String.eqb x ".." then ((root_elems (root_of rt) ++ l ++ [x])%list, None)
  else ((root_elems (root_of rt) ++ l)%list, Some (x, false)).
Proof.
  intros H. rewrite (path_parts_snoc _ (root_elems (root_of rt) ++ l) x).
  - rewrite <- app_assoc. reflexivity.
  - rewrite split_clean by (destruct l; discriminate || exact H). apply app_assoc.
  - apply Forall_app in H as [_ Hx]. inversion Hx as [|? ? Hx' _].
    exact (proj1 (seg_ok_spec x Hx')).
Qed.

Lemma abs_path_clean (env : Env) (rt : bool) (l : list string) :
  Forall (fun x => seg_ok x = true) l ->
  abs_path env (clean_path rt l) = twalk (if rt then [] else cwd env) l.
Proof.
  intros H. destruct l as [|x l] using rev_ind; [destruct rt; reflexivity|].
  unfold abs_path. rewrite path_parts_clean_snoc by exact H.
  rewrite start_clean by exact H.
  apply Forall_app in H as [_ Hx]. inversion Hx as [|? ? Hx' _]; subst.
  rewrite twalk_app. cbn [twalk fold_left].
  destruct (String.eqb x "." || String.eqb x "..") eqn:Ed.
  - rewrite twalk_root_elems, twalk_app. reflexivity.
  - rewrite twalk_root_elems. unfold tstep. rewrite seg_not_empty by exact Hx'.
    apply orb_false_iff in Ed as [E1 E2]. rewrite E1, E2. reflexivity.
Qed.

Lemma last_replicate_S (n : nat) (x : string) : last (replicate (S n) x) = Some x.
Proof. induction n as [|n IH]; [reflexivity|]. change (replicate (S (S n)) x) with (x :: replicate (S n) x).
  rewrite last_cons, IH. reflexivity. Qed.

Lemma replicate_S_snoc (n : nat) (x : string) : replicate (S n) x = (replicate n x ++ [x])%list.
Proof. induction n as [|n IH]; simpl in *; [reflexivity|]. f_equal. exact IH. Qed.

Lemma Forall_plain_dotdot (names : list string) :
  Forall (fun x => plain_name x = true) names -> last names <> Some "..".
Proof.
  intros H. destruct names as [|y l] using rev_ind; [discriminate|].
  rewrite last_snoc. apply Forall_app in H as [_ Hy]. inversion Hy as [|? ? Hy' _]; subst.
  destruct (plain_not_dots y Hy') as (_ & _ & H2). intros E. injection E as ->. discriminate.
Qed.

Lemma clean_step_shape (rt : bool) (out : list string) (c : string) :
  has_slash c = false ->
  (exists n names, out = (replicate n ".." ++ names)%list
     /\ Forall (fun x => plain_name x = true) names /\ (rt = true -> n = 0)) ->
  exists n names, clean_step rt out c = (replicate n ".." ++ names)%list
     /\ Forall (fun x => plain_name x = true) names /\ (rt = true -> n = 0).
Proof.
  intros Hc (n & names & -> & Hn & Hz). unfold clean_step.
  destruct (String.eqb c "" || String.eqb c ".") eqn:E1; [eauto|].
  destruct (String.eqb c "..") eqn:E2.
  - destruct names as [|nm names' _] using rev_ind.
    + rewrite app_nil_r. destruct n as [|n'].
      * cbn [replicate last]. destruct rt.
        -- exists 0, []. auto.
        -- exists 1, []. split; [reflexivity|]. split; [constructor|discriminate].
      * rewrite last_replicate_S. cbn [String.eqb Ascii.eqb Bool.eqb andb].
        exists (S (S n')), []. rewrite app_nil_r, (replicate_S_snoc (S n')).
        split; [reflexivity|]. split; [constructor|]. intros Hr. specialize (Hz Hr). lia.
    + apply Forall_app in Hn as [Hn' Hnm]. inversion Hnm as [|? ? Hnm' _]; subst.
      rewrite app_assoc, last_snoc. destruct (plain_not_dots nm Hnm') as (_ & _ & H2).
      rewrite H2, removelast_last. exists n, names'. auto.
  - exists n, (names ++ [c])%list. split; [symmetry; apply app_assoc|]. split; [|exact Hz].
    apply Forall_app. split; [exact Hn|]. constructor; [|constructor].
    apply orb_false_iff in E1 as [E0 E1]. unfold plain_name, seg_ok.
    rewrite E0, E1, E2, Hc. reflexivity.
Qed.

Lemma fold_clean_shape (rt : bool) (l : list string) :
  Forall (fun x => has_slash x = false) l ->
  forall out,
  (exists n names, out = (replicate n ".." ++ names)%list
     /\ Forall (fun x => plain_name x = true) names /\ (rt = true -> n = 0)) ->
  exists n names, fold_left (clean_step rt) l out = (replicate n ".." ++ names)%list
     /\ Forall (fun x => plain_name x = true) names /\ (rt = true -> n = 0).
Proof.
  induction l as [|c l IH]; intros Hl out Hout; [exact Hout|].
  inversion Hl as [|? ? Hc Hl']; subst. cbn [fold_left].
  apply IH; [exact Hl'|]. apply clean_step_shape; assumption.
Qed.

(** What [filepath.Dir] returns: some leading ".." (none when rooted),
    then names. *)
Lemma Dir_shape (s : string) :
  exists rt n names, Dir s = clean_path rt (replicate n ".." ++ names)
     /\ Forall (fun x => plain_name x = true) names /\ (rt = true -> n = 0).
Proof.
  unfold Dir. set (t := match split_slash s with [_] => "" | _ => join "/" (removelast (split_slash s)) ++ "/" end).
  unfold Clean.
  destruct (fold_clean_shape (rooted t) (split_slash t) (split_slash_elems t) [])
    as (n & names & E & Hn & Hz).
  { exists 0, []. auto. }
  exists (rooted t), n, names. rewrite E. auto.
Qed.

Lemma shape_seg (n : nat) (names : list string) :
  Forall (fun x => plain_name x = true) names ->
  Forall (fun x => seg_ok x = true) (replicate n ".." ++ names).
Proof.
  intros H. apply Forall_app. split; [|exact (plain_forall_seg _ H)].
  apply Forall_replicate. reflexivity.
Qed.

Lemma path_parts_clean_dots (rt : bool) (m : nat) :
  (path_parts (clean_path rt (replicate m ".."))).2 = None.
Proof.
  destruct m as [|m]; [destruct rt; reflexivity|].
  rewrite replicate_S_snoc, path_parts_clean_snoc; [reflexivity|].
  rewrite <- replicate_S_snoc. apply Forall_replicate. reflexivity.
Qed.

(** ** Plain paths *)

Lemma resolve_path_string (env : Env) (fs : FS) (r : path_root) (ds : list string)
    (name : string) (d : list string) :
  Forall (fun x => plain_name x = true) ds -> plain_name name = true ->
  walk fs (if is_abs r then [] else cwd env) ds = inr d ->
  resolve env fs (path_string r (ds ++ [name])) = inr (d, Some (name, false)).
Proof.
  intros Hds Hn Hw. pose proof (plain_forall_seg _ Hds) as Hds'.
  assert (Hcs : Forall (fun x => seg_ok x = true) (ds ++ [name])).
  { apply Forall_app. split; [exact Hds'|]. constructor; [apply plain_seg; exact Hn|constructor]. }
  unfold resolve. rewrite path_string_ne by (exact Hcs || (destruct ds; discriminate)).
  rewrite path_parts_path_string by assumption.
  rewrite start_path_string by (exact Hcs || (destruct ds; discriminate)).
  rewrite walk_root_elems, Hw. reflexivity.
Qed.

Lemma resolve_clean_plain (env : Env) (fs : FS) (rt : bool) (a : list string) (x : string)
    (d : list string) :
  Forall (fun y => plain_name y = true) (a ++ [x]) ->
  walk fs (if rt then [] else cwd env) a = inr d ->
  resolve env fs (clean_path rt (a ++ [x])) = inr (d, Some (x, false)).
Proof.
  intros H Hw. apply Forall_app in H as [Ha Hx]. inversion Hx as [|? ? Hx' _]; subst.
  rewrite clean_path_as_path_string by (destruct a; discriminate).
  apply resolve_path_string; [exact Ha|exact Hx'|]. destruct rt; exact Hw.
Qed.

Lemma stat_clean_plain (env : Env) (rt : bool) (a : list string) (fs : FS) (n : node) :
  Forall (fun x => plain_name x = true) a -> a <> [] ->
  stat env (clean_path rt a) fs = inr n ->
  walk fs (if rt then [] else cwd env) (removelast a)
    = inr ((if rt then [] else cwd env) ++ removelast a)%list
  /\ fs !! ((if rt then [] else cwd env) ++ a)%list = Some n.
Proof.
  intros Ha Hne H. pose proof (stat_lookup _ _ _ _ H) as Hl.
  rewrite abs_path_clean, twalk_plain in Hl by (exact Ha || exact (plain_forall_seg _ Ha)).
  split; [|exact Hl].
  destruct a as [|y a' _] using rev_ind; [congruence|]. rewrite removelast_last.
  apply Forall_app in Ha as [Ha' Hy].
  unfold stat in H. destruct (fault env OStat _); [discriminate|].
  destruct (walk fs (if rt then [] else cwd env) a') as [e|d] eqn:Hw.
  - exfalso. unfold resolve in H.
    destruct (String.eqb _ ""); [discriminate|].
    rewrite path_parts_clean_snoc in H by (apply plain_forall_seg, Forall_app; auto).
    inversion Hy as [|? ? Hy' _]; subst.
    destruct (plain_not_dots y Hy') as (_ & H1 & H2). rewrite H1, H2 in H. cbn [orb] in H.
    rewrite start_clean, walk_root_elems in H by (apply plain_forall_seg, Forall_app; auto).
    rewrite Hw in H. discriminate.
  - f_equal. rewrite (walk_twalk _ _ _ _ Hw). apply twalk_plain. exact Ha'.
Qed.

Lemma stat_clean_dir (env : Env) (rt : bool) (a : list string) (fs : FS) (wr : bool) :
  Forall (fun x => plain_name x = true) a ->
  stat env (clean_path rt a) fs = inr (NDir wr) ->
  walk fs (if rt then [] else cwd env) a = inr ((if rt then [] else cwd env) ++ a)%list
  /\ fs !! ((if rt then [] else cwd env) ++ a)%list = Some (NDir wr).
Proof.
  intros Ha H. destruct a as [|y a' _] using rev_ind.
  - pose proof (stat_lookup _ _ _ _ H) as Hl. rewrite abs_path_clean in Hl by constructor.
    rewrite app_nil_r. split; [reflexivity|exact Hl].
  - destruct (stat_clean_plain _ _ _ _ _ Ha ltac:(destruct a'; discriminate) H) as [Hw Hl].
    rewrite removelast_last in Hw. split; [|exact Hl].
    apply Forall_app in Ha as [_ Hy]. inversion Hy as [|? ? Hy' _]; subst.
    rewrite walk_app, Hw. cbn [walk]. destruct (plain_not_dots y Hy') as (H0 & H1 & H2).
    rewrite H0, H1, H2. cbn [orb]. rewrite <- app_assoc, Hl. reflexivity.
Qed.

Lemma resolve_clean_nil (env : Env) (fs : FS) (rt : bool) :
  resolve env fs (clean_path rt []) = inr (if rt then [] else cwd env, None).
Proof. destruct rt; reflexivity. Qed.

Lemma stat_clean_of_dirs (env : Env) (rt : bool) (b : list string) (fs : FS) (wr : bool) :
  fault env OStat (clean_path rt b) = None ->
  Forall (fun x => plain_name x = true) b ->
  dirs_along fs (if rt then [] else cwd env) b ->
  fs !! ((if rt then [] else cwd env) ++ b)%list = Some (NDir wr) ->
  stat env (clean_path rt b) fs = inr (NDir wr).
Proof.
  intros Hf Hb Hd Hl. destruct b as [|y b' _] using rev_ind.
  - rewrite app_nil_r in Hl. unfold stat. rewrite Hf, resolve_clean_nil. rewrite Hl. reflexivity.
  - unfold stat. rewrite Hf.
    rewrite (resolve_clean_plain _ _ _ _ _ ((if rt then [] else cwd env) ++ b')%list Hb).
    + rewrite <- app_assoc, Hl. reflexivity.
    + apply Forall_app in Hb as [Hb' _]. apply walk_plain_dirs; [exact Hb'|].
      intros i Hi. destruct (Hd i) as [wr' Hwr]; [rewrite length_app; simpl; lia|].
      exists wr'. rewrite take_app_le in Hwr by lia. exact Hwr.
Qed.

(** ** os.MkdirAll *)

(** A property of the file system before and after every successful
    [mkdir] of a path of the recursion holds of the whole call. *)
Lemma mkdirall_gen (env : Env) (P : string -> Prop) (R : FS -> FS -> Prop) :
  (forall fs, R fs fs) -> (forall a b c, R a b -> R b c -> R a c) ->
  (forall q, P q -> 0 < String.length (mkdir_parent q) -> P (mkdir_parent q)) ->
  (forall q fs fs', P q -> mkdir env q fs = inr fs' -> R fs fs') ->
  forall fuel q fs, P q -> R fs (mkdirall env fuel q fs).1.
Proof.
  intros Hr Ht Hp Hm. induction fuel as [|fuel IH]; intros q fs Hq; cbn [mkdirall].
  - destruct (stat env q fs) as [e|[wr|wr d]]; cbn [fst]; try apply Hr.
    destruct (mkdir env q fs) as [e'|fs2] eqn:Hk.
    + destruct (stat env q fs) as [e''|[wr|wr d]]; apply Hr.
    + exact (Hm _ _ _ Hq Hk).
  - destruct (stat env q fs) as [e|[wr|wr d]]; cbn [fst]; try apply Hr.
    destruct (Nat.ltb 0 (String.length (mkdir_parent q))) eqn:El.
    + apply Nat.ltb_lt in El.
      pose proof (IH (mkdir_parent q) fs (Hp q Hq El)) as HR.
      destruct (mkdirall env fuel (mkdir_parent q) fs) as [fs1 [e1|]]; cbn [fst] in *; [exact HR|].
      destruct (mkdir env q fs1) as [e'|fs2] eqn:Hk.
      * destruct (stat env q fs1) as [e''|[wr|wr d]]; exact HR.
      * exact (Ht _ _ _ HR (Hm _ _ _ Hq Hk)).
    + destruct (mkdir env q fs) as [e'|fs2] eqn:Hk.
      * destruct (stat env q fs) as [e''|[wr|wr d]]; apply Hr.
      * exact (Hm _ _ _ Hq Hk).
Qed.

Lemma mkdirall_grows (env : Env) (fuel : nat) (q : string) (fs : FS) :
  grows fs (mkdirall env fuel q fs).1.
Proof.
  apply (mkdirall_gen env (fun _ => True) grows); auto.
  - exact grows_refl.
  - exact grows_trans.
  - intros q' fs0 fs' _ Hk. exact (grows_mkdir _ _ _ _ Hk).
Qed.

Lemma MkdirAll_grows (env : Env) (p : string) (fs : FS) : grows fs (MkdirAll env p fs).1.
Proof. apply mkdirall_grows. Qed.

Lemma take_shape (n : nat) (names : list string) (i : nat) :
  take i (replicate n ".." ++ names) = (replicate (Nat.min i n) ".." ++ take (i - n) names)%list.
Proof. rewrite take_app, take_replicate, length_replicate. reflexivity. Qed.

(** [os.MkdirAll] of [filepath.Dir(p)] only makes directories on the way
    to that directory. *)
Lemma MkdirAll_Dir_frame (env : Env) (fp : string) (fs : FS) (k : list string) :
  ~ k `prefix_of` abs_path env (Dir fp) -> (MkdirAll env (Dir fp) fs).1 !! k = fs !! k.
Proof.
  destruct (Dir_shape fp) as (rt & n & names & HD & Hn & Hz).
  set (out := (replicate n ".." ++ names)%list) in HD.
  set (st := if rt then [] else cwd env).
  pose proof (shape_seg n names Hn) as Hseg. fold out in Hseg.
  assert (HK : abs_path env (Dir fp) = (twalk st (replicate n "..") ++ names)%list).
  { rewrite HD, abs_path_clean by exact Hseg. unfold out. rewrite twalk_app.
    apply twalk_plain. exact Hn. }
  rewrite HK. intros Hk. unfold MkdirAll. rewrite HD.
  set (K := (twalk st (replicate n "..") ++ names)%list) in *.
  revert k Hk.
  apply (mkdirall_gen env (fun q => exists i, q = clean_path rt (take i out))
           (fun fs fs' => forall k, ~ k `prefix_of` K -> fs' !! k = fs !! k)).
  - auto.
  - intros a b c Hab Hbc k Hk. rewrite (Hbc k Hk). exact (Hab k Hk).
  - intros q [i ->] Hpos.
    assert (Hsi : Forall (fun x => seg_ok x = true) (take i out)) by (apply Forall_take; exact Hseg).
    remember (take i out) as t eqn:Ht.
    destruct t as [|x t' _] using rev_ind.
    + rewrite mkdir_parent_clean_nil in Hpos. simpl in Hpos. lia.
    + apply Forall_app in Hsi as [Ht' Hx]. inversion Hx as [|? ? Hx' _]; subst.
      rewrite mkdir_parent_clean in * by exact Hx'.
      destruct t' as [|y t''] eqn:Et'; [simpl in Hpos; lia|].
      rewrite <- Et' in *. exists (length t').
      assert (Hlen : length (take i out) = length t' + 1) by (rewrite <- Ht, length_app; reflexivity).
      rewrite length_take in Hlen.
      f_equal. rewrite <- (Nat.min_l (length t') i) by lia. rewrite <- take_take, <- Ht.
      rewrite take_app_length. reflexivity.
  - intros q fs0 fs' [i ->] Hm k Hk.
    destruct (mkdir_key _ _ _ _ Hm) as (_ & _ & -> & dd & c & sl & Hr).
    rewrite lookup_insert_ne; [reflexivity|]. intros <-. apply Hk.
    destruct (resolve_inv _ _ _ _ _ Hr) as (dcs & Hpp & _).
    assert (Hsi : Forall (fun x => seg_ok x = true) (take i out)) by (apply Forall_take; exact Hseg).
    rewrite abs_path_clean by exact Hsi. fold st.
    unfold out. rewrite take_shape.
    destruct (decide (take (i - n) names = [])) as [E|E].
    + exfalso. unfold out in Hpp. rewrite take_shape, E, app_nil_r in Hpp.
      pose proof (path_parts_clean_dots rt (Nat.min i n)) as Hd. rewrite Hpp in Hd. discriminate.
    + assert (Hi : n < i) by (destruct (decide (i <= n)) as [Hle|]; [|lia];
                              replace (i - n) with 0 in E by lia; exfalso; apply E; reflexivity).
      rewrite Nat.min_r by lia. rewrite twalk_app, twalk_plain by (apply Forall_take; exact Hn).
      apply prefix_app. apply prefix_take.
  - exists (length out). rewrite take_ge by lia. reflexivity.
Qed.

Lemma mkdirall_stat_dir (env : Env) (fuel : nat) (q : string) (fs : FS) (wr : bool) :
  stat env q fs = inr (NDir wr) -> mkdirall env fuel q fs = (fs, None).
Proof. intros H. destruct fuel; cbn [mkdirall]; rewrite H; reflexivity. Qed.

Lemma MkdirAll_stat_dir (env : Env) (q : string) (fs : FS) (wr : bool) :
  stat env q fs = inr (NDir wr) -> MkdirAll env q fs = (fs, None).
Proof. apply mkdirall_stat_dir. Qed.

Lemma mkdirall_success_stat (env : Env) (fuel : nat) (q : string) (fs fs1 : FS) :
  fault_free env -> mkdirall env fuel q fs = (fs1, None) ->
  exists wr, stat env q fs1 = inr (NDir wr).
Proof.
  intros Hff. destruct fuel as [|fuel]; cbn [mkdirall];
    destruct (stat env q fs) as [e|[wr|wr d]] eqn:Hs;
    try (intros H; injection H as <-; eauto; fail); try discriminate.
  - destruct (mkdir env q fs) as [e'|fs2] eqn:Hk.
    + destruct (stat env q fs) as [e''|[wr|wr d]]; try discriminate; congruence.
    + intros H. injection H as <-. exists true. apply (mkdir_stat _ _ _ _ Hk). apply Hff.
  - destruct (Nat.ltb 0 (String.length (mkdir_parent q))).
    + destruct (mkdirall env fuel (mkdir_parent q) fs) as [fs1' [e1|]]; [discriminate|].
      destruct (mkdir env q fs1') as [e'|fs2] eqn:Hk.
      * destruct (stat env q fs1') as [e''|[wr|wr d]] eqn:Hs'; try discriminate.
        intros H. injection H as <-. eauto.
      * intros H. injection H as <-. exists true. apply (mkdir_stat _ _ _ _ Hk). apply Hff.
    + destruct (mkdir env q fs) as [e'|fs2] eqn:Hk.
      * destruct (stat env q fs) as [e''|[wr|wr d]]; try discriminate; congruence.
      * intros H. injection H as <-. exists true. apply (mkdir_stat _ _ _ _ Hk). apply Hff.
Qed.


Lemma match_list_ne (xs : list string) (s : string) :
  xs <> [] -> match xs with [] => "" | _ :: _ => s end = s.
Proof. destruct xs; [congruence|reflexivity]. Qed.



(** A regular file among the leading directories makes [os.MkdirAll]
    fail at that file, with nothing changed. *)
Lemma mkdirall_under_file (env : Env) (rt : bool) (a b : list string) (fs : FS)
    (wr : bool) (d : bytes) :
  fault_free env ->
  Forall (fun x => plain_name x = true) (a ++ b) -> a <> [] ->
  stat env (clean_path rt a) fs = inr (NFile wr d) ->
  forall fuel, length b <= fuel ->
  mkdirall env fuel (clean_path rt (a ++ b)) fs
  = (fs, Some (PathError "mkdir" (clean_path rt a) ENOTDIR)).
Proof.
  intros Hff Hab Ha Hs.
  assert (Ha' : Forall (fun x => plain_name x = true) a).
  { apply Forall_app in Hab as [H _]. exact H. }
  destruct (stat_clean_plain _ _ _ _ _ Ha' Ha Hs) as [Hw Hl].
  induction b as [|x b IH] using rev_ind; intros fuel Hfuel.
  - rewrite app_nil_r. destruct fuel; cbn [mkdirall]; rewrite Hs; reflexivity.
  - rewrite length_app in Hfuel. simpl in Hfuel. destruct fuel as [|fuel]; [lia|].
    assert (Hab' : Forall (fun x => plain_name x = true) (a ++ b)).
    { rewrite app_assoc in Hab. apply Forall_app in Hab as [H _]. exact H. }
    assert (Hx : plain_name x = true).
    { apply Forall_app in Hab as [_ H]. apply Forall_app in H as [_ H]. inversion H; assumption. }
    replace (clean_path rt (a ++ b ++ [x])) with (clean_path rt ((a ++ b) ++ [x]))
      by (rewrite app_assoc; reflexivity).
    assert (Hwalk : walk fs (if rt then [] else cwd env) (a ++ b) = inl ENOTDIR).
    { destruct a as [|y a' _] using rev_ind; [congruence|].
      rewrite removelast_last in Hw. rewrite <- app_assoc, walk_app, Hw. cbn [app walk].
      apply Forall_app in Ha' as [_ Hy]. inversion Hy as [|? ? Hy' _]; subst.
      destruct (plain_not_dots y Hy') as (H0 & H1 & H2). rewrite H0, H1, H2. cbn [orb].
      rewrite <- app_assoc, Hl. reflexivity. }
    assert (Hres : resolve env fs (clean_path rt ((a ++ b) ++ [x])) = inl ENOTDIR).
    { unfold resolve.
      rewrite clean_path_as_path_string by (destruct a; [congruence|discriminate]).
      rewrite path_string_ne.
      2: destruct a; [congruence|discriminate].
      2: apply plain_forall_seg, Forall_app; split; [exact Hab'|constructor; [exact Hx|constructor]].
      rewrite path_parts_path_string by (exact (plain_forall_seg _ Hab') || exact Hx).
      rewrite start_path_string.
      2: destruct a; [congruence|discriminate].
      2: apply plain_forall_seg, Forall_app; split; [exact Hab'|constructor; [exact Hx|constructor]].
      rewrite walk_root_elems. destruct rt; cbn [is_abs root_of]; rewrite Hwalk; reflexivity. }
    cbn [mkdirall]. unfold stat at 1. rewrite (Hff OStat), Hres.
    rewrite mkdir_parent_clean by (apply plain_seg; exact Hx).
    assert (E : (a ++ b)%list <> []) by (destruct a; [congruence|discriminate]).
    rewrite (match_list_ne _ _ E).
    replace (Nat.ltb 0 (String.length (clean_path rt (a ++ b)))) with true
      by (symmetry; apply Nat.ltb_lt, clean_path_pos; [exact E|apply plain_forall_seg; exact Hab']).
    rewrite (IH Hab' fuel ltac:(lia)). reflexivity.
Qed.

(** ** saveToFile *)








(** A target that is a directory is reported by the open step. *)
Lemma SF_dir_target (env : Env) (j : logToJSON) (fp : string) (fs : FS) (wr wr' : bool) :
  fault_free env ->
  stat env (Dir fp) fs = inr (NDir wr) ->
  stat env fp fs = inr (NDir wr') ->
  saveToFile env j fp fs = (fs, Some ("file open failed, " ++ PathError "open" fp EISDIR)).
Proof.
  intros Hff Hd Hf. unfold saveToFile. cbv zeta.
  rewrite (MkdirAll_stat_dir _ _ _ _ Hd). unfold fileExists. rewrite Hf.
  rewrite (OpenFile_of_stat_dir _ _ _ _ (Hff _ _) Hf). reflexivity.
Qed.


(** ** Paths of plain names *)



Lemma stat_path_string (env : Env) (fs : FS) (r : path_root) (ds : list string)
    (name : string) (n : node) :
  fault env OStat (path_string r (ds ++ [name])) = None ->
  Forall (fun x => plain_name x = true) ds -> plain_name name = true ->
  dirs_along fs (if is_abs r then [] else cwd env) ds ->
  fs !! ((if is_abs r then [] else cwd env) ++ ds ++ [name])%list = Some n ->
  stat env (path_string r (ds ++ [name])) fs = inr n.
Proof.
  intros Hf Hds Hn Hd Hl. unfold stat. rewrite Hf.
  rewrite (resolve_path_string _ _ _ _ _ _ Hds Hn (walk_plain_dirs _ _ Hds _ Hd)).
  rewrite <- app_assoc, Hl. destruct n; reflexivity.
Qed.

Lemma Dir_stat_path_string (env : Env) (fs : FS) (r : path_root) (ds : list string)
    (name : string) (wr : bool) :
  fault_free env ->
  Forall (fun x => plain_name x = true) ds -> plain_name name = true ->
  dirs_along fs (if is_abs r then [] else cwd env) ds ->
  fs !! ((if is_abs r then [] else cwd env) ++ ds)%list = Some (NDir wr) ->
  stat env (Dir (path_string r (ds ++ [name]))) fs = inr (NDir wr).
Proof.
  intros Hff Hds Hn Hd Hl. rewrite Dir_path_string by assumption.
  apply stat_clean_of_dirs; [apply Hff | exact Hds | destruct r; exact Hd | destruct r; exact Hl].
Qed.




(** ** A sequence of appends *)







(** ** What a call can change *)

Ltac pick_outcome :=
  cbn [fst snd]; rewrite ?insert_insert_eq;
  match goal with
  | |- exists o, <[_ := ?n]> _ = _ /\ _ => exists (Some n)
  | |- exists o, _ = _ /\ _ => exists None
  end;
  split; [reflexivity|];
  split; [first [discriminate | intros ? [= <-]; eauto]|].

(** After [os.MkdirAll], the call changes at most the target's entry: it
    then holds a writable regular file, and was one before or was missing
    in a writable directory.  With no I/O faults, a failing call leaves
    the target as it was after [os.MkdirAll], or as an empty file. *)
Lemma saveToFile_after_mkdir (env : Env) (j : logToJSON) (fp : string) (fs fs1 : FS)
    (e1 : option string) :
  MkdirAll env (Dir fp) fs = (fs1, e1) ->
  exists o,
    (saveToFile env j fp fs).1
    = match o with None => fs1 | Some n => <[abs_path env fp := n]> fs1 end
    /\ (forall n, o = Some n -> exists d, n = NFile true d)
    /\ (o <> None ->
        (exists d, fs1 !! abs_path env fp = Some (NFile true d))
        \/ (fs1 !! abs_path env fp = None
            /\ fs1 !! parent_key (abs_path env fp) = Some (NDir true)))
    /\ (fault_free env -> (saveToFile env j fp fs).2 <> None ->
        o = None \/ o = Some (NFile true [])).
Proof.
  intros Hm. unfold saveToFile. rewrite Hm.
  destruct e1 as [e|].
  { pick_outcome. split; [congruence|]. auto. }
  cbv zeta.
  destruct (fileExists env fp fs1) eqn:Hex.
  - destruct (OpenFile env fp fs1) as [e|[k d]] eqn:Ho.
    { pick_outcome. split; [congruence|]. auto. }
    destruct (OpenFile_key _ _ _ _ _ Ho) as [-> Hl].
    assert (Hold : (exists d, fs1 !! abs_path env fp = Some (NFile true d))
                   \/ (fs1 !! abs_path env fp = None
                       /\ fs1 !! parent_key (abs_path env fp) = Some (NDir true)))
      by (left; eauto).
    destruct (fault env OFstat fp) as [e|] eqn:Hst.
    { pick_outcome. split; [congruence|]. auto. }
    destruct (Nat.eqb (length d) 0).
    + unfold write_file. destruct (fault env OWrite fp) as [e|] eqn:Hw.
      * pick_outcome. split; [intros _; exact Hold|].
        intros Hff. rewrite Hff in Hw. discriminate.
      * pick_outcome. split; [intros _; exact Hold|].
        intros _ H. exfalso. apply H. reflexivity.
    + destruct (fault env OTruncate fp) as [e|] eqn:Ht.
      { pick_outcome. split; [congruence|]. auto. }
      destruct (Nat.eqb (length (take (length d - 1) d)) 0) eqn:Hz.
      * pick_outcome. split; [intros _; exact Hold|].
        intros _ _. right. apply Nat.eqb_eq, length_zero_iff_nil in Hz. rewrite Hz. reflexivity.
      * unfold write_file. destruct (fault env OWrite fp) as [e|] eqn:Hw.
        -- pick_outcome. split; [intros _; exact Hold|].
           intros Hff. rewrite Hff in Hw. discriminate.
        -- pick_outcome. split; [intros _; exact Hold|].
           intros _ H. exfalso. apply H. reflexivity.
  - destruct (Create env fp fs1) as [e|[k fs2]] eqn:Hc.
    { pick_outcome. split; [congruence|]. auto. }
    destruct (Create_key _ _ _ _ _ Hc) as (-> & -> & Hold & _).
    destruct (OpenFile env fp (<[abs_path env fp := NFile true []]> fs1)) as [e|[k' d]] eqn:Ho.
    { pick_outcome. split; [intros _; exact Hold|]. auto. }
    destruct (OpenFile_key _ _ _ _ _ Ho) as [-> Hl].
    rewrite lookup_insert_eq in Hl. injection Hl as <-.
    destruct (fault env OFstat fp) as [e|] eqn:Hst.
    { pick_outcome. split; [intros _; exact Hold|]. auto. }
    cbn [length Nat.eqb]. unfold write_file. destruct (fault env OWrite fp) as [e|] eqn:Hw.
    + pick_outcome. split; [intros _; exact Hold|].
      intros Hff. rewrite Hff in Hw. discriminate.
    + pick_outcome. split; [intros _; exact Hold|].
      intros _ H. exfalso. apply H. reflexivity.
Qed.
Lemma bytes_of_length (a : string) : length (bytes_of a) = String.length a.
Proof. induction a as [|c a IH].
  - done.
  - unfold bytes_of in *. simpl. rewrite IH. done. Qed.


(** Splitting on the three optional parts of [build_parts]. *)
Ltac case_parts opts :=
  destruct (String.eqb (Process opts) "") eqn:?HP;
  destruct (IsZero (StartTime opts)) eqn:?HT;
  destruct (String.eqb (User opts) "") eqn:?HU;
  simpl.

(** The parts of the display line, as [build_parts] orders them. *)
Lemma build_parts_shape (fmt_time : Z -> string) level message opts tcur tclose :
  (build_parts fmt_time level message opts tcur tclose).1 =
  ([bracket level]
   ++ (if String.eqb (Process opts) "" then [] else [Process opts])
   ++ (if IsZero (StartTime opts) then []
       else [(fmt_d (Milliseconds (Sub tcur (StartTime opts))) ++ " ms")%string])
   ++ (if String.eqb (User opts) "" then [] else [User opts])
   ++ [message])%list.
Proof. unfold build_parts. case_parts opts; reflexivity. Qed.

(** The record built alongside the parts. *)
Lemma build_parts_record (fmt_time : Z -> string) level message opts tcur tclose :
  (build_parts fmt_time level message opts tcur tclose).2 =
  mkLogToJSON (fmt_time tclose) level
    (if String.eqb (Process opts) "" then "" else Process opts)
    (if IsZero (StartTime opts) then ""
     else fmt_d (Milliseconds (Sub tcur (StartTime opts))) ++ " ms")
    (if String.eqb (User opts) "" then "" else User opts)
    message.
Proof. unfold build_parts. case_parts opts; reflexivity. Qed.

Lemma string_eqb_empty (s : string) : String.eqb s "" = true <-> s = "".
Proof. apply String.eqb_eq. Qed.

(** ** The serialised record *)

Lemma record_fields_keys (fmt_time : Z -> string) level message opts tcur tclose :
  map fst (record_fields (build_parts fmt_time level message opts tcur tclose).2) =
    (["time"; "level"]
     ++ (if String.eqb (Process opts) "" then [] else ["process"])
     ++ (if IsZero (StartTime opts) then [] else ["duration"])
     ++ (if String.eqb (User opts) "" then [] else ["user"])
     ++ ["message"])%list.
Proof.
  rewrite build_parts_record. unfold record_fields, omitempty. simpl.
  destruct (String.eqb (Process opts) "") eqn:HP;
  destruct (IsZero (StartTime opts)) eqn:HT;
  destruct (String.eqb (User opts) "") eqn:HU;
  simpl; rewrite ?HP, ?HU, ?ms_suffix_nonempty; reflexivity.
Qed.

Lemma record_fields_no_null (fmt_time : Z -> string) level message opts tcur tclose :
  Forall (fun kv => kv.2 <> JNull)
    (record_fields (build_parts fmt_time level message opts tcur tclose).2).
Proof.
  rewrite build_parts_record. unfold record_fields, omitempty.
  repeat (apply Forall_app; split);
  repeat (case_match; simpl); repeat constructor; discriminate.
Qed.

(** C3.  The record [logMessage] serialises has the members "time" and
    "level", then "process" exactly when [Process] is not empty,
    "duration" exactly when [StartTime] is not zero, "user" exactly when
    [User] is not empty, then "message"; no member is [null].  With empty
    [Process] and [User] and a zero [StartTime] the members are exactly
    "time", "level" and "message". *)
Theorem record_fields_present (fmt_time : Z -> string) level message opts tcur tclose :
  let j := (build_parts fmt_time level message opts tcur tclose).2 in
  map fst (record_fields j) =
    (["time"; "level"]
     ++ (if String.eqb (Process opts) "" then [] else ["process"])
     ++ (if IsZero (StartTime opts) then [] else ["duration"])
     ++ (if String.eqb (User opts) "" then [] else ["user"])
     ++ ["message"])%list
  /\ Forall (fun kv => kv.2 <> JNull) (record_fields j)
  /\ (Process opts = "" -> User opts = "" -> StartTime opts = 0%Z ->
      map fst (record_fields j) = ["time"; "level"; "message"]).
Proof.
  cbv zeta. split; [|split].
  - apply record_fields_keys.
  - apply record_fields_no_null.
  - intros HP HU HT. rewrite record_fields_keys, HP, HU, HT. reflexivity.
Qed.

(** ** The file-logging setting *)

Lemma string_neq_empty_eqb (s : string) : s <> "" -> String.eqb s "" = false.
Proof. apply String.eqb_neq. Qed.

(** The file system after a call only depends on whether, and where,
    [checkSaveLogOption] asks for a save. *)
Lemma logMessage_fs (fmt_time : Z -> string) (env : Env) l level message options tcur tclose w :
  w_fs (logMessage fmt_time env l level message options tcur tclose w).1 =
  match checkSaveLogOption (effective_file_log l (first_opts options)) with
  | (true, path, _) =>
      (saveToFile env (build_parts fmt_time level message (first_opts options) tcur tclose).2
         path (w_fs w)).1
  | (false, _, _) => w_fs w
  end.
Proof.
  unfold logMessage.
  destruct (build_parts fmt_time level message (first_opts options) tcur tclose)
    as [parts j] eqn:Hb.
  destruct (checkSaveLogOption (effective_file_log l (first_opts options)))
    as [[[|] path] err].
  - cbn [fst snd].
    destruct (saveToFile env j path (w_fs w)) as [fs' [e|]];
      [destruct (String.eqb level INFO)|]; reflexivity.
  - reflexivity.
Qed.

(** C6.  The effective setting is the call's [FileLog] when it is not nil
    and the logger's default otherwise.  [false] leaves the file system
    alone, [true] appends the call's record to "./log.json", and a
    non-empty string appends it to that path. *)
Theorem effective_file_log_target (fmt_time : Z -> string) (env : Env) l level message options
    tcur tclose w :
  let opts := first_opts options in
  let s := effective_file_log l opts in
  let j := (build_parts fmt_time level message opts tcur tclose).2 in
  let fs' := w_fs (logMessage fmt_time env l level message options tcur tclose w).1 in
  s = match FileLog opts with ANil => LFileLog l | v => v end
  /\ (s = ABool false -> fs' = w_fs w)
  /\ (s = ABool true -> fs' = (saveToFile env j "./log.json" (w_fs w)).1)
  /\ (forall path, s = AStr path -> path <> "" ->
        fs' = (saveToFile env j path (w_fs w)).1)
  /\ jLevel j = level /\ jMessage j = message.
Proof.
  cbv zeta. rewrite !logMessage_fs.
  split; [reflexivity|]. split; [|split; [|split]].
  - intros Hs. rewrite Hs. reflexivity.
  - intros Hs. rewrite Hs. reflexivity.
  - intros path Hs Hne. rewrite Hs. simpl.
    rewrite (string_neq_empty_eqb path Hne). reflexivity.
  - rewrite build_parts_record. split; reflexivity.
Qed.

(** C10.  When the effective setting is neither a [bool] nor a [string],
    or is the empty string, no save is attempted: [checkSaveLogOption]
    answers [shouldSave = false], the file system is unchanged, and the
    call prints one line holding its parts (the message last among them)
    followed, for a setting of another type, by the error text. *)
Theorem no_save_for_invalid_setting (fmt_time : Z -> string) (env : Env) l level message
    options tcur tclose w :
  let opts := first_opts options in
  let s := effective_file_log l opts in
  match s with ABool _ => False | AStr v => v = "" | _ => True end ->
  let parts := (build_parts fmt_time level message opts tcur tclose).1 in
  let r := (logMessage fmt_time env l level message options tcur tclose w).1 in
  (checkSaveLogOption s).1.1 = false
  /\ w_fs r = w_fs w
  /\ w_console r =
       app (w_console w)
        [fmt_time tclose ++ mark_ok
         ++ join " | " (app parts (match (checkSaveLogOption s).2 with
                                   | Some e => ["Error: " ++ e]
                                   | None => []
                                   end)) ++ LF]
  /\ last parts = Some message
  /\ ((forall v, s <> AStr v) ->
      (checkSaveLogOption s).2 =
        Some ("log will not be saved, invalid file log setting type: "
              ++ type_name_of s ++ ", expected bool or string")).
Proof.
  cbv zeta. intros Hs.
  assert (Hlast : last (build_parts fmt_time level message (first_opts options)
                          tcur tclose).1 = Some message).
  { rewrite build_parts_shape, !app_assoc. apply last_snoc. }
  unfold logMessage.
  destruct (build_parts fmt_time level message (first_opts options) tcur tclose)
    as [parts j] eqn:Hb.
  cbn [fst snd] in *.
  destruct (effective_file_log l (first_opts options)) as [|b|v|t] eqn:He;
    try contradiction.
  - repeat split; assumption.
  - subst v. simpl. rewrite app_nil_r.
    repeat split; try assumption.
    intros Hne. exfalso. exact (Hne "" eq_refl).
  - repeat split; assumption.
Qed.

Lemma no_save_for_invalid_setting_witness :
  (match effective_file_log New (first_opts [mkLogOptions 0%Z "" "" (AOther "int")])
   with ABool _ => False | AStr v => v = "" | _ => True end)
  /\ w_console (logMessage (fun _ => "T") env_example New INFO "m"
                  [mkLogOptions 0%Z "" "" (AOther "int")] 0%Z 0%Z
                  (mkWorld ∅ [])).1 =
     ["T" ++ mark_ok ++ join " | " [bracket INFO; "m";
        "Error: log will not be saved, invalid file log setting type: int, expected bool or string"] ++ LF].
Proof.
  split.
  - exact I.
  - destruct (no_save_for_invalid_setting (fun _ => "T") env_example New INFO "m"
               [mkLogOptions 0%Z "" "" (AOther "int")] 0%Z 0%Z (mkWorld ∅ []) I)
      as (_ & _ & Hc & _ & _).
    rewrite Hc. reflexivity.
Defined.

(** ** A failed append *)

Lemma check_save_true_no_error (s : Any) path err :
  checkSaveLogOption s = (true, path, err) -> err = None.
Proof.
  destruct s as [|[|]|v|t]; simpl; try discriminate.
  - congruence.
  - destruct (String.eqb v ""); congruence.
Qed.

Lemma logMessage_save_failed (fmt_time : Z -> string) (env : Env) l level message options
    tcur tclose w path err e :
  let opts := first_opts options in
  let parts := (build_parts fmt_time level message opts tcur tclose).1 in
  let j := (build_parts fmt_time level message opts tcur tclose).2 in
  checkSaveLogOption (effective_file_log l opts) = (true, path, err) ->
  (saveToFile env j path (w_fs w)).2 = Some e ->
  logMessage fmt_time env l level message options tcur tclose w =
  (mkWorld (saveToFile env j path (w_fs w)).1
     (app (w_console w)
        [fmt_time tclose ++ mark_fail
         ++ join " | " (app (if String.eqb level INFO
                             then set_head (bracket WARN) parts else parts)
                            ["Error: " ++ e]) ++ LF]),
   if String.eqb level INFO then set_Level j WARN else j).
Proof.
  cbv zeta. intros Hc Hs.
  pose proof (check_save_true_no_error _ _ _ Hc) as ->.
  unfold logMessage.
  destruct (build_parts fmt_time level message (first_opts options) tcur tclose)
    as [parts j] eqn:Hb.
  cbn [fst snd] in *. rewrite Hc.
  destruct (saveToFile env j path (w_fs w)) as [fs' e'] eqn:Hsv.
  cbn [fst snd] in *. subst e'.
  destruct (String.eqb level INFO); reflexivity.
Qed.

(** C4.  When a save is requested and the append fails with [e], an INFO
    call has its first part rewritten to " [WARN]" in the display line and
    its record's level set to WARN, while any other level is kept; the
    line is closed with the error text. *)
Theorem info_becomes_warn_on_failed_append (fmt_time : Z -> string) (env : Env) l level message
    options tcur tclose w path err e :
  let opts := first_opts options in
  let parts := (build_parts fmt_time level message opts tcur tclose).1 in
  let j := (build_parts fmt_time level message opts tcur tclose).2 in
  checkSaveLogOption (effective_file_log l opts) = (true, path, err) ->
  (saveToFile env j path (w_fs w)).2 = Some e ->
  let r := logMessage fmt_time env l level message options tcur tclose w in
  head parts = Some (bracket level)
  /\ (level = INFO ->
      jLevel r.2 = WARN /\ r.2 = set_Level j WARN
      /\ w_console r.1 =
         app (w_console w)
           [fmt_time tclose ++ mark_fail
            ++ join " | " (app (set_head (bracket WARN) parts) ["Error: " ++ e]) ++ LF])
  /\ (level <> INFO ->
      r.2 = j
      /\ w_console r.1 =
         app (w_console w)
           [fmt_time tclose ++ mark_fail
            ++ join " | " (app parts ["Error: " ++ e]) ++ LF]).
Proof.
  cbv zeta. intros Hc Hs.
  rewrite (logMessage_save_failed fmt_time env l level message options tcur tclose w
             path err e Hc Hs).
  cbn [fst snd w_console].
  split; [|split].
  - rewrite build_parts_shape. reflexivity.
  - intros ->. simpl. auto.
  - intros Hne. rewrite (proj2 (String.eqb_neq level INFO) Hne). auto.
Qed.

Lemma info_becomes_warn_on_failed_append_witness :
  checkSaveLogOption (effective_file_log New
    (first_opts [mkLogOptions 0%Z "" "" (AStr "/invalid/path/test.json")]))
    = (true, "/invalid/path/test.json", None)
  /\ (saveToFile env_example (build_parts fixed_time INFO "Test 6"
        (first_opts [mkLogOptions 0%Z "" "" (AStr "/invalid/path/test.json")]) 0%Z 0%Z).2
        "/invalid/path/test.json" fs_example).2
     = Some "directory creation failed, mkdir /invalid: permission denied"
  /\ jLevel (logMessage fixed_time env_example New INFO "Test 6"
        [mkLogOptions 0%Z "" "" (AStr "/invalid/path/test.json")] 0%Z 0%Z
        world_example).2 = WARN.
Proof.
  assert (Hc : checkSaveLogOption (effective_file_log New
    (first_opts [mkLogOptions 0%Z "" "" (AStr "/invalid/path/test.json")]))
    = (true, "/invalid/path/test.json", None)) by reflexivity.
  assert (Hs : (saveToFile env_example (build_parts fixed_time INFO "Test 6"
        (first_opts [mkLogOptions 0%Z "" "" (AStr "/invalid/path/test.json")]) 0%Z 0%Z).2
        "/invalid/path/test.json" (w_fs world_example)).2
     = Some "directory creation failed, mkdir /invalid: permission denied")
    by reflexivity.
  split; [exact Hc|]. split; [exact Hs|].
  destruct (info_becomes_warn_on_failed_append fixed_time env_example New INFO "Test 6"
              [mkLogOptions 0%Z "" "" (AStr "/invalid/path/test.json")] 0%Z 0%Z
              world_example _ _ _ Hc Hs) as (_ & Hinfo & _).
  destruct (Hinfo eq_refl) as (Hlvl & _). exact Hlvl.
Defined.

(** ** Failures of the file sink do not escape the call *)

Lemma logMessage_one_line (fmt_time : Z -> string) (env : Env) l level message options
    tcur tclose w :
  exists line,
    w_console (logMessage fmt_time env l level message options tcur tclose w).1
    = app (w_console w) [line].
Proof.
  unfold logMessage.
  destruct (build_parts fmt_time level message (first_opts options) tcur tclose)
    as [parts j].
  destruct (checkSaveLogOption (effective_file_log l (first_opts options)))
    as [[[|] path] err].
  - destruct (saveToFile env j path (w_fs w)) as [fs' [e|]];
      [destruct (String.eqb level INFO)|]; eexists; reflexivity.
  - eexists; reflexivity.
Qed.

(** C5 (as amended).  [Info] and [Warn] always return normally and print
    exactly one line.  When the append fails with [e], that line carries
    the marker " x" instead of " ✓", starts its parts with " [WARN]" (an
    INFO level is rewritten), and ends with the part "Error: e". *)
Theorem info_warn_failed_append_line (fmt_time : Z -> string) (env : Env) l message options
    tcur tclose w :
  let opts := first_opts options in
  (Info fmt_time env l message options tcur tclose w).2 = Returned
  /\ (Warn fmt_time env l message options tcur tclose w).2 = Returned
  /\ (exists line, w_console (Info fmt_time env l message options tcur tclose w).1
                   = app (w_console w) [line])
  /\ (exists line, w_console (Warn fmt_time env l message options tcur tclose w).1
                   = app (w_console w) [line])
  /\ (forall level path err e, level = INFO \/ level = WARN ->
      let parts := (build_parts fmt_time level message opts tcur tclose).1 in
      let j := (build_parts fmt_time level message opts tcur tclose).2 in
      checkSaveLogOption (effective_file_log l opts) = (true, path, err) ->
      (saveToFile env j path (w_fs w)).2 = Some e ->
      w_console (logMessage fmt_time env l level message options tcur tclose w).1
      = app (w_console w)
          [fmt_time tclose ++ mark_fail
           ++ join " | " (app (set_head (bracket WARN) parts) ["Error: " ++ e])
           ++ LF]).
Proof.
  cbv zeta. split; [reflexivity|]. split; [reflexivity|].
  split; [apply logMessage_one_line|]. split; [apply logMessage_one_line|].
  intros level path err e Hlv Hc Hs.
  rewrite (logMessage_save_failed fmt_time env l level message options tcur tclose w
             path err e Hc Hs).
  cbn [w_console fst].
  destruct Hlv as [-> | ->]; [reflexivity|].
  simpl. rewrite build_parts_shape. reflexivity.
Qed.

(** C5 as stated fails: the failing INFO call's line is not the plain line
    of the same call plus extra text, since its marker is " x" and its
    level is shown as WARN. *)
Lemma info_failed_append_line_differs :
  let line_fail :=
    nth 0 (w_console (Info fixed_time env_example New "bad"
             [mkLogOptions 0%Z "" "" (AStr "/invalid/path/test.json")] 0%Z 0%Z
             world_example).1) "" in
  let line_plain :=
    nth 0 (w_console (Info fixed_time env_example New "bad" [] 0%Z 0%Z world_example).1) "" in
  line_fail = "2024-01-02 03:04:05 x [WARN] | bad | Error: directory creation failed, mkdir /invalid: permission denied" ++ LF
  /\ line_plain = "2024-01-02 03:04:05 ✓ [INFO] | bad" ++ LF
  /\ ~ (exists extra, line_fail = "2024-01-02 03:04:05 ✓ [INFO] | bad" ++ extra).
Proof.
  cbv zeta. split; [reflexivity|]. split; [reflexivity|].
  intros [extra H]. apply (f_equal (String.get 20)) in H.
  vm_compute in H. discriminate H.
Qed.

(** ** Fatal and Panic *)

(** C7.  [Fatal] logs the call and ends with [os.Exit(1)]; [Panic] logs
    the call and panics with exactly the message, which an enclosing
    [recover] hands to its handler, whereas an exit is never recovered.
    Both hold for every file system, so for every outcome of the sink. *)
Theorem fatal_exits_panic_panics (fmt_time : Z -> string) (env : Env) l message options
    tcur tclose w :
  let wf := (logMessage fmt_time env l FATAL message options tcur tclose w).1 in
  let wp := (logMessage fmt_time env l PANIC message options tcur tclose w).1 in
  Fatal fmt_time env l message options tcur tclose w = (wf, Exited 1%Z)
  /\ Panic fmt_time env l message options tcur tclose w = (wp, Panicked message)
  /\ (exists line, w_console wf = app (w_console w) [line])
  /\ (exists line, w_console wp = app (w_console w) [line])
  /\ (forall handler,
        with_recover (Panic fmt_time env l message options tcur tclose w) handler
        = handler message wp)
  /\ (forall handler,
        with_recover (Fatal fmt_time env l message options tcur tclose w) handler
        = (wf, Exited 1%Z)).
Proof.
  cbv zeta.
  split; [reflexivity|]. split; [reflexivity|].
  split; [apply logMessage_one_line|]. split; [apply logMessage_one_line|].
  split; intros handler; reflexivity.
Qed.

(** ** The duration part *)

Lemma Sub_nonneg (t u : Z) : (u <= t)%Z -> (0 <= Sub t u)%Z.
Proof.
  intros H. unfold Sub, minDuration, maxDuration.
  destruct (Z.leb_spec (- 2 ^ 63) (t - u)); destruct (Z.leb_spec (t - u) (2 ^ 63 - 1));
    destruct (Z.ltb_spec u t); simpl; lia.
Qed.

Lemma Sub_mono (t t' u : Z) : (t <= t')%Z -> (Sub t u <= Sub t' u)%Z.
Proof.
  intros H. unfold Sub, minDuration, maxDuration.
  destruct (Z.leb_spec (- 2 ^ 63) (t - u)); destruct (Z.leb_spec (t - u) (2 ^ 63 - 1));
  destruct (Z.leb_spec (- 2 ^ 63) (t' - u)); destruct (Z.leb_spec (t' - u) (2 ^ 63 - 1));
  destruct (Z.ltb_spec u t); destruct (Z.ltb_spec u t'); simpl; lia.
Qed.

Lemma fmt_d_nonneg (n : Z) : (0 <= n)%Z -> fmt_d n = nat_digits n.
Proof. intros H. unfold fmt_d. destruct (Z.ltb_spec n 0); [lia | reflexivity]. Qed.

(** C8 (as amended).  With a non-zero [StartTime] the duration is
    [currentTime - StartTime] in whole milliseconds, truncated toward zero
    and printed as "<N> ms", where [currentTime] is the clock read taken
    when the duration part is built; it is non-negative when
    [StartTime <= currentTime] and at most the milliseconds up to any
    later read such as the closing time. *)
Theorem duration_from_current_time (fmt_time : Z -> string) level message opts
    tcur tclose :
  IsZero (StartTime opts) = false ->
  let parts := (build_parts fmt_time level message opts tcur tclose).1 in
  let j := (build_parts fmt_time level message opts tcur tclose).2 in
  jDuration j = fmt_d (Milliseconds (Sub tcur (StartTime opts))) ++ " ms"
  /\ In (jDuration j) parts
  /\ ((StartTime opts <= tcur)%Z ->
      (0 <= Milliseconds (Sub tcur (StartTime opts)))%Z
      /\ jDuration j = nat_digits (Milliseconds (Sub tcur (StartTime opts))) ++ " ms")
  /\ ((tcur <= tclose)%Z ->
      (Milliseconds (Sub tcur (StartTime opts))
       <= Milliseconds (Sub tclose (StartTime opts)))%Z).
Proof.
  intros Hz. cbv zeta.
  rewrite build_parts_record, build_parts_shape, Hz. cbn [jDuration].
  split; [reflexivity|]. split.
  - apply in_or_app. right. apply in_or_app. right. apply in_or_app. left.
    simpl. auto.
  - split.
    + intros Hle.
      assert (Hn : (0 <= Milliseconds (Sub tcur (StartTime opts)))%Z).
      { unfold Milliseconds. apply Z.quot_pos; [apply Sub_nonneg; exact Hle | lia]. }
      split; [exact Hn|]. rewrite (fmt_d_nonneg _ Hn). reflexivity.
    + intros Hle. unfold Milliseconds. apply Z.quot_le_mono; [lia|].
      apply Sub_mono. exact Hle.
Qed.

Lemma duration_from_current_time_witness :
  IsZero (StartTime (mkLogOptions 5%Z "P" "" ANil)) = false
  /\ jDuration (build_parts fixed_time WARN "slow" (mkLogOptions 5%Z "P" "" ANil)
                  250000005%Z 250000005%Z).2 = "250 ms".
Proof.
  split; [reflexivity|].
  destruct (duration_from_current_time fixed_time WARN "slow"
              (mkLogOptions 5%Z "P" "" ANil) 250000005%Z 250000005%Z eq_refl)
    as (H & _).
  rewrite H. reflexivity.
Defined.

(** C8 as stated fails: the duration is taken from the read before the
    closing time, so with [StartTime] 1 ns, that read at 1 ns and the
    closing read at 2000001 ns the record says "0 ms" although the closing
    time is 2 ms after the start. *)
Lemma duration_not_from_closing_time :
  jDuration (build_parts fixed_time INFO "m" (mkLogOptions 1%Z "" "" ANil)
               1%Z 2000001%Z).2 = "0 ms"
  /\ fmt_d (Milliseconds (Sub 2000001%Z 1%Z)) ++ " ms" = "2 ms".
Proof. split; reflexivity. Qed.

(** ** The display line *)



(** ** A sequence of appends to a fresh path *)



(** ** Creation of the parent directories *)




(** ** What a call changes in the file system *)

(** X1.  [saveToFile] changes nothing but the target and the directories
    on the way to the target's directory: every key that is neither the
    target's nor a prefix of its directory's keeps its entry, whatever
    the outcome. *)
Theorem saveToFile_frame (env : Env) (j : logToJSON) (fp : string) (fs : FS)
    (k : list string) :
  k <> abs_path env fp ->
  ~ k `prefix_of` abs_path env (Dir fp) ->
  (saveToFile env j fp fs).1 !! k = fs !! k.
Proof.
  intros Hk Hpre.
  destruct (MkdirAll env (Dir fp) fs) as [fs1 e1] eqn:Hm.
  destruct (saveToFile_after_mkdir env j fp fs fs1 e1 Hm) as (o & Ho & _).
  rewrite Ho.
  assert (Hf : fs1 !! k = fs !! k).
  { pose proof (MkdirAll_Dir_frame env fp fs k Hpre) as H. rewrite Hm in H. exact H. }
  destruct o as [n|]; [rewrite lookup_insert_ne by congruence|]; exact Hf.
Qed.

Lemma saveToFile_frame_witness :
  let fs := <[["tmp"] := NDir true]> fs_example in
  (["tmp"] <> abs_path env_example "./logs/app.json"
   /\ ~ ["tmp"] `prefix_of` abs_path env_example (Dir "./logs/app.json"))
  /\ (saveToFile env_example (mkLogToJSON "t" INFO "" "" "" "m") "./logs/app.json" fs).1
       !! ["tmp"] = Some (NDir true).
Proof.
  cbv zeta.
  assert (H1 : ["tmp"] <> abs_path env_example "./logs/app.json").
  { intros H. vm_compute in H. discriminate H. }
  assert (H2 : ~ ["tmp"] `prefix_of` abs_path env_example (Dir "./logs/app.json")).
  { intros [s Hs]. vm_compute in Hs. discriminate Hs. }
  split; [split; [exact H1 | exact H2]|].
  rewrite (saveToFile_frame env_example (mkLogToJSON "t" INFO "" "" "" "m") "./logs/app.json"
             (<[["tmp"] := NDir true]> fs_example) ["tmp"] H1 H2).
  reflexivity.
Defined.

(** X2.  [saveToFile] never removes an entry and never changes an
    existing directory: an existing entry is kept, except that the target
    itself, when it is a writable regular file, may get new contents. *)
Theorem saveToFile_keeps_entries (env : Env) (j : logToJSON) (fp : string) (fs : FS)
    (k : list string) (n : node) :
  fs !! k = Some n ->
  (saveToFile env j fp fs).1 !! k = Some n
  \/ (k = abs_path env fp
      /\ exists d d', n = NFile true d /\ (saveToFile env j fp fs).1 !! k = Some (NFile true d')).
Proof.
  intros Hk.
  destruct (MkdirAll env (Dir fp) fs) as [fs1 e1] eqn:Hm.
  destruct (saveToFile_after_mkdir env j fp fs fs1 e1 Hm) as (o & Ho & Hfile & Hold & _).
  rewrite Ho.
  assert (Hk1 : fs1 !! k = Some n).
  { pose proof (MkdirAll_grows env (Dir fp) fs) as G. rewrite Hm in G.
    exact (grows_keeps _ _ _ _ G Hk). }
  destruct o as [n'|]; [|left; exact Hk1].
  destruct (decide (k = abs_path env fp)) as [->|Hne].
  - right. split; [reflexivity|].
    destruct (Hfile n' eq_refl) as [d' ->].
    destruct (Hold ltac:(discriminate)) as [[d Hd] | [Hn _]]; [|congruence].
    exists d, d'. split; [congruence|]. apply lookup_insert_eq.
  - left. rewrite lookup_insert_ne by congruence. exact Hk1.
Qed.

Lemma saveToFile_keeps_entries_witness :
  fs_example !! ["work"] = Some (NDir true)
  /\ (saveToFile env_example (mkLogToJSON "t" INFO "" "" "" "m") "./log.json" fs_example).1
       !! ["work"] = Some (NDir true).
Proof.
  assert (H : fs_example !! ["work"] = Some (NDir true)) by reflexivity.
  split; [exact H|].
  destruct (saveToFile_keeps_entries env_example (mkLogToJSON "t" INFO "" "" "" "m")
              "./log.json" fs_example ["work"] (NDir true) H) as [Hk | [Heq _]].
  - exact Hk.
  - vm_compute in Heq. discriminate Heq.
Defined.

(** X3.  With no I/O fault, a failed [saveToFile] writes no record: the
    target keeps its previous entry, or is left an empty file (created,
    or truncated before the failing seek), or, having been missing, is
    now a directory [os.MkdirAll] made (as for a path "a/b/.."). *)
Theorem saveToFile_failure_writes_nothing (env : Env) (j : logToJSON) (fp : string) (fs : FS)
    (e : string) :
  fault_free env ->
  (saveToFile env j fp fs).2 = Some e ->
  (saveToFile env j fp fs).1 !! abs_path env fp = fs !! abs_path env fp
  \/ (saveToFile env j fp fs).1 !! abs_path env fp = Some (NFile true [])
  \/ (fs !! abs_path env fp = None
      /\ (saveToFile env j fp fs).1 !! abs_path env fp = Some (NDir true)).
Proof.
  intros Hff He.
  destruct (MkdirAll env (Dir fp) fs) as [fs1 e1] eqn:Hm.
  destruct (saveToFile_after_mkdir env j fp fs fs1 e1 Hm) as (o & Ho & _ & _ & Herr).
  destruct (Herr Hff ltac:(congruence)) as [-> | ->]; rewrite Ho.
  - pose proof (MkdirAll_grows env (Dir fp) fs) as G. rewrite Hm in G.
    destruct (G (abs_path env fp)) as [E | (E1 & E2 & _)]; [left; exact E|].
    right. right. split; assumption.
  - right. left. apply lookup_insert_eq.
Qed.

Lemma saveToFile_failure_writes_nothing_witness :
  let fs := <[["work"; "log.json"] := NFile true ["x"%char]]> fs_example in
  let j := mkLogToJSON "t" INFO "" "" "" "m" in
  (fault_free env_example
   /\ (saveToFile env_example j "./log.json" fs).2
      = Some "seek failed, seek ./log.json: invalid argument")
  /\ ((saveToFile env_example j "./log.json" fs).1 !! abs_path env_example "./log.json"
        = fs !! abs_path env_example "./log.json"
      \/ (saveToFile env_example j "./log.json" fs).1 !! abs_path env_example "./log.json"
        = Some (NFile true [])
      \/ (fs !! abs_path env_example "./log.json" = None
          /\ (saveToFile env_example j "./log.json" fs).1 !! abs_path env_example "./log.json"
             = Some (NDir true))).
Proof.
  cbv zeta.
  assert (H1 : fault_free env_example) by (intros o n; reflexivity).
  assert (H2 : (saveToFile env_example (mkLogToJSON "t" INFO "" "" "" "m") "./log.json"
                 (<[["work"; "log.json"] := NFile true ["x"%char]]> fs_example)).2
              = Some "seek failed, seek ./log.json: invalid argument")
    by (vm_compute; reflexivity).
  split; [split; [exact H1 | exact H2]|].
  exact (saveToFile_failure_writes_nothing _ _ _ _ _ H1 H2).
Defined.

(** X4.  A target that is a directory, in an existing directory, is
    reported by the open step under the name given, and nothing is
    changed. *)
Theorem saveToFile_directory_target (env : Env) (j : logToJSON) (fp : string) (fs : FS)
    (wr wr' : bool) :
  fault_free env ->
  stat env (Dir fp) fs = inr (NDir wr) ->
  stat env fp fs = inr (NDir wr') ->
  saveToFile env j fp fs = (fs, Some ("file open failed, " ++ PathError "open" fp EISDIR)).
Proof. apply SF_dir_target. Qed.

Lemma saveToFile_directory_target_witness :
  let fs := <[["work"; "logs"] := NDir true]> fs_example in
  (fault_free env_example
   /\ stat env_example (Dir "./logs/") fs = inr (NDir true)
   /\ stat env_example "./logs/" fs = inr (NDir true))
  /\ saveToFile env_example (mkLogToJSON "t" INFO "" "" "" "m") "./logs/" fs
     = (fs, Some "file open failed, open ./logs/: is a directory").
Proof.
  cbv zeta.
  assert (H1 : fault_free env_example) by (intros o n; reflexivity).
  assert (H2 : stat env_example (Dir "./logs/") (<[["work"; "logs"] := NDir true]> fs_example)
               = inr (NDir true)) by (vm_compute; reflexivity).
  assert (H3 : stat env_example "./logs/" (<[["work"; "logs"] := NDir true]> fs_example)
               = inr (NDir true)) by (vm_compute; reflexivity).
  split; [split; [exact H1 | split; [exact H2 | exact H3]]|].
  exact (saveToFile_directory_target env_example (mkLogToJSON "t" INFO "" "" "" "m") "./logs/" _
           true true H1 H2 H3).
Defined.

(** X5.  A missing target of a plain path whose directory exists but
    cannot be written: [os.Create] fails with EACCES under the name given,
    and nothing is changed. *)
Theorem saveToFile_create_denied (env : Env) (j : logToJSON) (r : path_root)
    (ds : list string) (name : string) (fs : FS) :
  let st := if is_abs r then [] else cwd env in
  let fp := path_string r (ds ++ [name]) in
  fault_free env ->
  Forall (fun x => plain_name x = true) ds -> plain_name name = true ->
  dirs_along fs st ds -> fs !! (st ++ ds)%list = Some (NDir false) ->
  fs !! (st ++ ds ++ [name])%list = None ->
  saveToFile env j fp fs = (fs, Some ("file creation failed, " ++ PathError "open" fp EACCES)).
Proof.
  cbv zeta. intros Hff Hds Hn Hd Hl Hnone.
  set (st := if is_abs r then [] else cwd env) in *.
  assert (Hr : resolve env fs (path_string r (ds ++ [name])) = inr (st, Some (name, false))
               \/ True) by (right; exact I).
  clear Hr.
  assert (Hr : resolve env fs (path_string r (ds ++ [name]))
               = inr ((st ++ ds)%list, Some (name, false))).
  { apply resolve_path_string; [exact Hds | exact Hn|]. apply walk_plain_dirs; assumption. }
  assert (Hnone' : fs !! ((st ++ ds) ++ [name])%list = None) by (rewrite <- app_assoc; exact Hnone).
  unfold saveToFile.
  rewrite (MkdirAll_stat_dir _ _ _ false (Dir_stat_path_string env fs r ds name false Hff Hds Hn Hd Hl)).
  unfold fileExists, stat. rewrite (Hff OStat), Hr, Hnone'. cbv zeta.
  replace (negb (String.eqb ENOENT ENOENT)) with false by reflexivity.
  unfold Create. rewrite (Hff OCreate), Hr, Hnone', Hl. reflexivity.
Qed.

Lemma saveToFile_create_denied_witness :
  let fs := <[["work"] := NDir false]> fs_example in
  (fault_free env_example
   /\ Forall (fun x => plain_name x = true) []
   /\ plain_name "x.json" = true
   /\ dirs_along fs ["work"] []
   /\ fs !! (["work"] ++ [])%list = Some (NDir false)
   /\ fs !! (["work"] ++ [] ++ ["x.json"])%list = None)
  /\ saveToFile env_example (mkLogToJSON "t" INFO "" "" "" "m") "./x.json" fs
     = (fs, Some "file creation failed, open ./x.json: permission denied").
Proof.
  cbv zeta.
  assert (H1 : fault_free env_example) by (intros o n; reflexivity).
  assert (H2 : Forall (fun x => plain_name x = true) (@nil string)) by constructor.
  assert (H3 : plain_name "x.json" = true) by reflexivity.
  assert (H4 : dirs_along (<[["work"] := NDir false]> fs_example) ["work"] [])
    by (intros i Hi; simpl in Hi; lia).
  assert (H5 : (<[["work"] := NDir false]> fs_example) !! (["work"] ++ [])%list
               = Some (NDir false)) by reflexivity.
  assert (H6 : (<[["work"] := NDir false]> fs_example) !! (["work"] ++ [] ++ ["x.json"])%list
               = None) by reflexivity.
  split; [tauto|].
  exact (saveToFile_create_denied env_example (mkLogToJSON "t" INFO "" "" "" "m") RDot [] "x.json"
           _ H1 H2 H3 H4 H5 H6).
Defined.

(** X6.  A regular file [a ++ [x]] where a directory of a plain target
    path is expected makes [saveToFile] fail at the [os.MkdirAll] step,
    which names that file by its cleaned path, and nothing is changed. *)
Theorem saveToFile_parent_is_file (env : Env) (j : logToJSON) (r : path_root)
    (a : list string) (x : string) (b : list string) (name : string) (fs : FS)
    (wr : bool) (d : bytes) :
  let st := if is_abs r then [] else cwd env in
  fault_free env ->
  Forall (fun y => plain_name y = true) (a ++ x :: b) -> plain_name name = true ->
  dirs_along fs st a -> fs !! (st ++ a ++ [x])%list = Some (NFile wr d) ->
  saveToFile env j (path_string r (a ++ x :: b ++ [name])) fs
  = (fs, Some ("directory creation failed, "
               ++ PathError "mkdir" (clean_path (is_abs r) (a ++ [x])) ENOTDIR)).
Proof.
  cbv zeta. intros Hff Hall Hn Hd Hl.
  assert (Hfp : path_string r (a ++ x :: b ++ [name]) = path_string r ((a ++ x :: b) ++ [name]))
    by (rewrite <- app_assoc; reflexivity).
  assert (HD : Dir (path_string r (a ++ x :: b ++ [name])) = clean_path (is_abs r) ((a ++ [x]) ++ b)).
  { rewrite Hfp, Dir_path_string by assumption. rewrite <- app_assoc. reflexivity. }
  assert (Hall' : Forall (fun y => plain_name y = true) ((a ++ [x]) ++ b))
    by (rewrite <- app_assoc; exact Hall).
  assert (Hax : Forall (fun y => plain_name y = true) a /\ plain_name x = true).
  { apply Forall_app in Hall as [Ha Hxb]. inversion Hxb; subst. auto. }
  destruct Hax as [Ha Hx].
  assert (Hst : stat env (clean_path (is_abs r) (a ++ [x])) fs = inr (NFile wr d)).
  { rewrite clean_path_as_path_string by (destruct a; discriminate).
    apply stat_path_string; [apply Hff | exact Ha | exact Hx | destruct r; exact Hd |].
    destruct r; exact Hl. }
  assert (Hlen : length b <= String.length (clean_path (is_abs r) ((a ++ [x]) ++ b))).
  { pose proof (clean_path_length (is_abs r) _ (plain_forall_seg _ Hall')) as H.
    rewrite !length_app in H. lia. }
  unfold saveToFile, MkdirAll. rewrite HD.
  rewrite (mkdirall_under_file env (is_abs r) (a ++ [x]) b fs wr d Hff Hall'
             ltac:(destruct a; discriminate) Hst _ Hlen).
  reflexivity.
Qed.

Lemma saveToFile_parent_is_file_witness :
  let fs := <[["work"; "logs"] := NFile true []]> fs_example in
  (fault_free env_example
   /\ Forall (fun y => plain_name y = true) ([] ++ ["logs"; "a"])
   /\ plain_name "x.json" = true
   /\ dirs_along fs ["work"] []
   /\ fs !! (["work"] ++ [] ++ ["logs"])%list = Some (NFile true []))
  /\ saveToFile env_example (mkLogToJSON "t" INFO "" "" "" "m") "./logs/a/x.json" fs
     = (fs, Some "directory creation failed, mkdir logs: not a directory").
Proof.
  cbv zeta.
  assert (H1 : fault_free env_example) by (intros o n; reflexivity).
  assert (H2 : Forall (fun y => plain_name y = true) ([] ++ "logs" :: ["a"]))
    by (repeat constructor).
  assert (H3 : plain_name "x.json" = true) by reflexivity.
  assert (H4 : dirs_along (<[["work"; "logs"] := NFile true []]> fs_example) ["work"] [])
    by (intros i Hi; simpl in Hi; lia).
  assert (H5 : (<[["work"; "logs"] := NFile true []]> fs_example) !! (["work"] ++ [] ++ ["logs"])%list
               = Some (NFile true [])) by reflexivity.
  split; [tauto|].
  exact (saveToFile_parent_is_file env_example (mkLogToJSON "t" INFO "" "" "" "m") RDot
           [] "logs" ["a"] "x.json" _ true [] H1 H2 H3 H4 H5).
Defined.

(** ** Appends to a file not written by the sink *)





(** ** Read-only directories *)

Lemma saveToFile_readonly (env : Env) (j : logToJSON) (fp : string) (fs : FS)
    (k : list string) :
  fs !! parent_key k = Some (NDir false) -> fs !! k = None ->
  (saveToFile env j fp fs).1 !! k = None
  /\ (saveToFile env j fp fs).1 !! parent_key k = Some (NDir false).
Proof.
  intros Hd Hk.
  destruct (MkdirAll env (Dir fp) fs) as [fs1 e1] eqn:Hm.
  pose proof (MkdirAll_grows env (Dir fp) fs) as G. rewrite Hm in G. cbn [fst] in G.
  assert (Hd1 : fs1 !! parent_key k = Some (NDir false)) by exact (grows_keeps _ _ _ _ G Hd).
  assert (Hk1 : fs1 !! k = None).
  { destruct (G k) as [E | (_ & _ & Hp)]; [rewrite E; exact Hk | congruence]. }
  destruct (saveToFile_after_mkdir env j fp fs fs1 e1 Hm) as (o & Ho & _ & Hold & _).
  rewrite Ho. destruct o as [n|]; [|split; assumption].
  destruct (Hold ltac:(discriminate)) as [[d Hf] | [Hn Hp]].
  - split.
    + rewrite lookup_insert_ne; [exact Hk1|]. intros E. rewrite <- E in *. congruence.
    + rewrite lookup_insert_ne; [exact Hd1|]. intros E. rewrite <- E in *. congruence.
  - split.
    + rewrite lookup_insert_ne; [exact Hk1|]. intros E. rewrite <- E in *. congruence.
    + rewrite lookup_insert_ne; [exact Hd1|]. intros E. rewrite <- E in *. congruence.
Qed.

(** X9.  [saveToFile] never creates anything inside a directory that
    cannot be written: a missing entry whose directory is read-only stays
    missing, and that directory stays as it is. *)
Theorem saveToFile_readonly_dir (env : Env) (j : logToJSON) (fp : string) (fs : FS)
    (k : list string) :
  fs !! parent_key k = Some (NDir false) -> fs !! k = None ->
  (saveToFile env j fp fs).1 !! k = None
  /\ (saveToFile env j fp fs).1 !! parent_key k = Some (NDir false).
Proof. apply saveToFile_readonly. Qed.

Lemma saveToFile_readonly_dir_witness :
  (fs_example !! parent_key ["invalid"] = Some (NDir false)
   /\ fs_example !! ["invalid"] = None)
  /\ (saveToFile env_example (mkLogToJSON "t" INFO "" "" "" "m") "/invalid/path/test.json"
        fs_example).1 !! ["invalid"] = None.
Proof.
  assert (H1 : fs_example !! parent_key ["invalid"] = Some (NDir false)) by reflexivity.
  assert (H2 : fs_example !! ["invalid"] = None) by reflexivity.
  split; [split; [exact H1 | exact H2]|].
  destruct (saveToFile_readonly_dir env_example (mkLogToJSON "t" INFO "" "" "" "m")
              "/invalid/path/test.json" fs_example _ H1 H2) as [H _].
  exact H.
Defined.

(** The read-only invariant on one key, kept by every log call. *)
Lemma logMessage_readonly (fmt_time : Z -> string) (env : Env) l level message options
    tcur tclose (w : World) (k : list string) :
  w_fs w !! parent_key k = Some (NDir false) -> w_fs w !! k = None ->
  let fs' := w_fs (logMessage fmt_time env l level message options tcur tclose w).1 in
  fs' !! parent_key k = Some (NDir false) /\ fs' !! k = None.
Proof.
  intros Hd Hk. cbv zeta. rewrite logMessage_fs.
  destruct (checkSaveLogOption _) as [[[|] path] err]; [|split; assumption].
  pose proof (fun j => saveToFile_readonly env j path (w_fs w) k Hd Hk) as H.
  split; apply H.
Qed.

Lemma test_info_readonly (fmt_time : Z -> string) (env : Env) clk k0 l message options
    (w : World) (k : list string) :
  w_fs w !! parent_key k = Some (NDir false) /\ w_fs w !! k = None ->
  let fs' := w_fs (test_info fmt_time env clk k0 l message options w) in
  fs' !! parent_key k = Some (NDir false) /\ fs' !! k = None.
Proof. intros [Hd Hk]. exact (logMessage_readonly _ _ _ _ _ _ _ _ _ _ Hd Hk). Qed.

Lemma test_cases_readonly (fmt_time : Z -> string) (env : Env) (clk : Clock) (l : Logger)
    (w : World) (k : list string) :
  w_fs w !! parent_key k = Some (NDir false) /\ w_fs w !! k = None ->
  let fs' := w_fs (test_cases fmt_time env clk l w).2 in
  fs' !! parent_key k = Some (NDir false) /\ fs' !! k = None.
Proof.
  intros H. unfold test_cases. cbv zeta. cbn [snd].
  repeat apply test_info_readonly. exact H.
Qed.

(** X17.  A whole [Test] run creates nothing inside a read-only
    directory; with the root not writable, "/invalid" (case 6) is never
    created. *)
Theorem Test_readonly_dir (fmt_time : Z -> string) (env : Env) (clk : Clock) (l : Logger)
    (w : World) (k : list string) :
  w_fs w !! parent_key k = Some (NDir false) -> w_fs w !! k = None ->
  w_fs (Test fmt_time env clk l w).2 !! k = None.
Proof.
  intros Hd Hk. unfold Test.
  exact (proj2 (test_cases_readonly fmt_time env clk l w k (conj Hd Hk))).
Qed.

Lemma Test_readonly_dir_witness :
  (w_fs world_example !! parent_key ["invalid"] = Some (NDir false)
   /\ w_fs world_example !! ["invalid"] = None)
  /\ w_fs (Test fixed_time env_example (fun _ => 1%Z) New world_example).2 !! ["invalid"] = None.
Proof.
  assert (H1 : w_fs world_example !! parent_key ["invalid"] = Some (NDir false))
    by reflexivity.
  assert (H2 : w_fs world_example !! ["invalid"] = None) by reflexivity.
  split; [split; [exact H1 | exact H2]|].
  exact (Test_readonly_dir fixed_time env_example (fun _ => 1%Z) New world_example _ H1 H2).
Defined.

(** ** Defaults of the logger *)

(** X10.  A logger from [New] whose call gives no [FileLog] touches no file;
    its line has the " ✓" marker and no status part. *)
Theorem New_no_file (fmt_time : Z -> string) (env : Env) level message options tcur tclose w :
  FileLog (first_opts options) = ANil ->
  let r := (logMessage fmt_time env New level message options tcur tclose w).1 in
  w_fs r = w_fs w
  /\ w_console r = app (w_console w)
       [fmt_time tclose ++ mark_ok
        ++ join " | " (build_parts fmt_time level message (first_opts options) tcur tclose).1
        ++ LF].
Proof.
  intros Hf. cbv zeta. unfold logMessage, effective_file_log. rewrite Hf.
  destruct (build_parts fmt_time level message (first_opts options) tcur tclose)
    as [parts j].
  split; reflexivity.
Qed.

Lemma New_no_file_witness :
  FileLog (first_opts [mkLogOptions 0%Z "P" "U" ANil]) = ANil
  /\ w_fs (logMessage fixed_time env_example New INFO "m" [mkLogOptions 0%Z "P" "U" ANil] 0%Z 0%Z
             world_example).1 = fs_example.
Proof.
  assert (H : FileLog (first_opts [mkLogOptions 0%Z "P" "U" ANil]) = ANil) by reflexivity.
  split; [exact H|].
  destruct (New_no_file fixed_time env_example INFO "m" [mkLogOptions 0%Z "P" "U" ANil] 0%Z 0%Z
              world_example H) as [Hfs _].
  exact Hfs.
Defined.

(** X11.  After [SetDefaultFileLog(v)] with a non-nil [v], a call that gives
    no [FileLog] behaves exactly like a call that gives [FileLog: v], on
    any logger: the previous default no longer matters. *)
Theorem SetDefaultFileLog_as_call_option (fmt_time : Z -> string) (env : Env) (l l' : Logger) (v : Any)
    level message (o : LogOptions) (rest : list LogOptions) tcur tclose w :
  v <> ANil ->
  FileLog o = ANil ->
  logMessage fmt_time env (SetDefaultFileLog l v) level message (o :: rest) tcur tclose w
  = logMessage fmt_time env l' level message [with_FileLog o v] tcur tclose w.
Proof.
  intros Hv Ho.
  assert (He : effective_file_log (SetDefaultFileLog l v) (first_opts (o :: rest))
               = effective_file_log l' (first_opts [with_FileLog o v])).
  { unfold effective_file_log. simpl. rewrite Ho. destruct v; congruence. }
  assert (Hb : build_parts fmt_time level message (first_opts [with_FileLog o v]) tcur tclose
               = build_parts fmt_time level message (first_opts (o :: rest)) tcur tclose)
    by reflexivity.
  unfold logMessage. rewrite He, Hb. reflexivity.
Qed.

Lemma SetDefaultFileLog_as_call_option_witness :
  (ABool true <> ANil /\ FileLog zero_opts = ANil)
  /\ logMessage fixed_time env_example (SetDefaultFileLog New (ABool true)) INFO "m" [zero_opts] 0%Z 0%Z
       world_example
     = logMessage fixed_time env_example New INFO "m" [with_FileLog zero_opts (ABool true)] 0%Z 0%Z
       world_example.
Proof.
  assert (H1 : ABool true <> ANil) by discriminate.
  assert (H2 : FileLog zero_opts = ANil) by reflexivity.
  split; [split; [exact H1 | exact H2]|].
  exact (SetDefaultFileLog_as_call_option fixed_time env_example New New (ABool true) INFO "m"
           zero_opts [] 0%Z 0%Z world_example H1 H2).
Defined.

(** X12.  A non-nil [FileLog] in the call's options overrides any default: the
    logger's own setting then has no effect on the call. *)
Theorem call_option_overrides_default (fmt_time : Z -> string) (env : Env) (l l' : Logger)
    level message options tcur tclose w :
  FileLog (first_opts options) <> ANil ->
  logMessage fmt_time env l level message options tcur tclose w
  = logMessage fmt_time env l' level message options tcur tclose w.
Proof.
  intros Ho.
  assert (He : effective_file_log l (first_opts options)
               = effective_file_log l' (first_opts options)).
  { unfold effective_file_log. destruct (FileLog (first_opts options)); congruence. }
  unfold logMessage. rewrite He. reflexivity.
Qed.

Lemma call_option_overrides_default_witness :
  FileLog (first_opts [with_FileLog zero_opts (ABool false)]) <> ANil
  /\ logMessage fixed_time env_example (SetDefaultFileLog New (ABool true)) INFO "m"
       [with_FileLog zero_opts (ABool false)] 0%Z 0%Z world_example
     = logMessage fixed_time env_example New INFO "m"
       [with_FileLog zero_opts (ABool false)] 0%Z 0%Z world_example.
Proof.
  assert (H : FileLog (first_opts [with_FileLog zero_opts (ABool false)]) <> ANil)
    by discriminate.
  split; [exact H|].
  exact (call_option_overrides_default fixed_time env_example _ New INFO "m" _ 0%Z 0%Z world_example H).
Defined.

(** X13.  [checkSaveLogOption] never asks for a save together with an error or
    an empty path, and an error always comes with no save and the empty
    path: only a setting of another type than bool or string is an error. *)
Theorem checkSaveLogOption_consistent (s : Any) :
  let '(shouldSave, path, err) := checkSaveLogOption s in
  (shouldSave = true -> err = None /\ path <> "")
  /\ (err <> None -> shouldSave = false /\ path = "")
  /\ (err = None <-> match s with ABool _ | AStr _ => True | _ => False end).
Proof.
  destruct s as [|[|]|v|t]; simpl.
  - split; [discriminate|]. split; [auto|]. split; [discriminate|tauto].
  - split; [split; [reflexivity|discriminate]|]. split; [congruence|tauto].
  - split; [discriminate|]. split; [congruence|tauto].
  - destruct (String.eqb_spec v "") as [->|Hv]; simpl.
    + split; [discriminate|]. split; [congruence|tauto].
    + split; [intros _; split; [reflexivity|exact Hv]|]. split; [congruence|tauto].
  - split; [discriminate|]. split; [auto|]. split; [discriminate|tauto].
Qed.

(** ** The test entry points *)

Lemma console_extends_refl (w : World) : console_extends 0 w w.
Proof. exists []. split; [by rewrite app_nil_r | reflexivity]. Qed.

Lemma console_extends_log (fmt_time : Z -> string) (env : Env) l level message options tcur tclose
    (n : nat) (w w' : World) :
  console_extends n w w' ->
  console_extends (S n) w (logMessage fmt_time env l level message options tcur tclose w').1.
Proof.
  intros (lines & Hc & Hl).
  destruct (logMessage_one_line fmt_time env l level message options tcur tclose w')
    as [line Hline].
  exists (lines ++ [line])%list. split.
  - rewrite Hline, Hc, app_assoc. reflexivity.
  - rewrite length_app, Hl. simpl. lia.
Qed.

Lemma console_extends_info (fmt_time : Z -> string) (env : Env) clk k l message options
    (n : nat) (w w' : World) :
  console_extends n w w' ->
  console_extends (S n) w (test_info fmt_time env clk k l message options w').
Proof. apply console_extends_log. Qed.

Lemma test_cases_spec (fmt_time : Z -> string) (env : Env) (clk : Clock) (l : Logger) (w : World) :
  (test_cases fmt_time env clk l w).1 = mkLogger (ABool false)
  /\ console_extends 7 w (test_cases fmt_time env clk l w).2.
Proof.
  split; [reflexivity|].
  unfold test_cases. cbv zeta. cbn [snd].
  repeat apply console_extends_info. apply console_extends_refl.
Qed.

(** X14.  [Test] prints exactly seven lines after those already printed, one
    per [Info] call, and leaves the logger's default at [false] whatever
    it was before. *)
Theorem Test_seven_lines (fmt_time : Z -> string) (env : Env) (clk : Clock) (l : Logger) (w : World) :
  LFileLog (Test fmt_time env clk l w).1 = ABool false
  /\ exists lines, w_console (Test fmt_time env clk l w).2 = (w_console w ++ lines)%list
                   /\ length lines = 7.
Proof.
  unfold Test. destruct (test_cases_spec fmt_time env clk l w) as [Hl He].
  rewrite Hl. split; [reflexivity | exact He].
Qed.

(** X15.  [TestWithPanic] returns normally: the panic of case 9 is stopped by
    the deferred [recover()], whose handler logs the recovery; nine lines
    are printed and the default ends at [false]. *)
Theorem TestWithPanic_recovers (fmt_time : Z -> string) (env : Env) (clk : Clock) (l : Logger)
    (w : World) :
  let r := TestWithPanic fmt_time env clk l w in
  LFileLog r.1 = ABool false
  /\ r.2.2 = Returned
  /\ exists lines, w_console r.2.1 = (w_console w ++ lines)%list /\ length lines = 9.
Proof.
  cbv zeta. unfold TestWithPanic.
  destruct (test_cases_spec fmt_time env clk l w) as [Hl He].
  destruct (test_cases fmt_time env clk l w) as [l1 w1]. cbn [fst snd] in Hl, He. subst l1.
  cbn [fst snd]. unfold with_recover, Panic, Info. cbn [fst snd].
  split; [reflexivity|]. split; [reflexivity|].
  apply console_extends_log, console_extends_log. exact He.
Qed.

(** X16.  [TestWithFatal] ends in [os.Exit(1)] after eight lines: the seven
    cases and the [Fatal] line of case 10. *)
Theorem TestWithFatal_exits (fmt_time : Z -> string) (env : Env) (clk : Clock) (l : Logger)
    (w : World) :
  let r := TestWithFatal fmt_time env clk l w in
  r.2.2 = Exited 1%Z
  /\ exists lines, w_console r.2.1 = (w_console w ++ lines)%list /\ length lines = 8.
Proof.
  cbv zeta. unfold TestWithFatal.
  destruct (test_cases_spec fmt_time env clk l w) as [Hl He].
  destruct (test_cases fmt_time env clk l w) as [l1 w1]. cbn [fst snd] in Hl, He. subst l1.
  cbn [fst snd]. unfold Fatal. cbn [fst snd].
  split; [reflexivity|].
  apply console_extends_log. exact He.
Qed.

(** ** Read-only directories *)
